(** * alertmanager-command-responder: the command dispatch core

    A shallow embedding of package [alert] (internal/alert/alert.go and
    internal/alert/commands.go): the resolution of the per-alert
    [AlertResponse] from the configuration and the alert's annotations, the
    local and the SSH executor, the host-key callback and the dispatch at the
    end of [HandleAlert].

    The Go code talks to the operating system, to the network and to a
    metrics registry.  Here these are explicit:
    - everything the code writes (the error counter, the log lines) lives in
      a [State] threaded through a small state monad [M];
    - everything the code asks of the outside (time.ParseDuration, os/exec,
      os.ReadFile, x/crypto/ssh and x/crypto/ssh/knownhosts) is a field of
      an environment [Env]; the theorems quantify over every environment;
    - a ghost [trace] in the state records which outside calls were made, so
      that "no dial occurs" or "the local executor was invoked" can be said. *)

From stdpp Require Import base strings gmap list.
From Stdlib Require Import ZArith.

Local Open Scope string_scope.
Local Open Scope Z_scope.
Local Open Scope list_scope.

(** ** Basic types *)

(** time.Duration: an int64 count of nanoseconds. *)
Definition Duration : Type := Z.
Definition Second : Duration := 1000000000.

(** A Go [error] value is represented by its message; the nil error is
    [None] of [option Error]. *)
Definition Error : Type := string.

(** ssh.PublicKey, represented by its wire encoding (key.Marshal()). *)
Definition PublicKey : Type := string.

(** ssh.Signer, as returned by ssh.ParsePrivateKey. *)
Inductive Signer : Type := MkSigner (pem : string).

(** ssh.AuthMethod.  [AuthNil] is the nil interface value that [auth] keeps
    when neither a key nor a password is configured. *)
Inductive AuthMethod : Type :=
| AuthNil
| AuthPublicKeys (key : Signer)
| AuthPassword (password : string).

(** ** The configuration (package config) *)

Module config.

(** Modelled from the spec: the declaration of [config.Config] (package
    internal/config, outside package alert).  The fields are the ones
    [HandleAlert] reads, plus the ssh connection timeout that the spec lists
    among the fallback values of DefaultConfig: user, ssh key path, ssh
    password, known-hosts path, host-key algorithms, ssh connection timeout,
    ssh command timeout, local command timeout. *)
Record Config : Type := {
  User : string;
  SSHKey : string;
  SSHPassword : string;
  SSHKnownHosts : string;
  SSHHostKeyAlgorithms : list string;
  SSHConnectionTimeout : Duration;
  SSHCommandTimeout : Duration;
  LocalCommandTimeout : Duration
}.

End config.

(** ** Annotation keys (alert.go, lines 25-33) *)

Definition userAnnotation : string := "command_responder_user".
Definition sshKeyAnnotation : string := "command_responder_ssh_key".
Definition sshHostAnnotation : string := "command_responder_ssh_host".
Definition sshCommandAnnotation : string := "command_responder_ssh_command".
Definition sshCommandTimeout : string := "command_responder_ssh_command_timeout".
Definition localCommandAnnotation : string := "command_responder_local_command".
Definition localCommandTimeout : string := "command_responder_local_command_timeout".

(** ** AlertResponse and Alert (alert.go, lines 35-53) *)

Record AlertResponse : Type := {
  User : string;
  SSHKey : string;
  SSHPassword : string;
  SSHKnownHosts : string;
  SSHHostKeyAlgorithms : list string;
  SSHConnectionTimeout : Duration;
  SSHCommandTimeout : Duration;
  SSHHost : string;
  SSHCommand : string;
  LocalCommand : string;
  LocalCommandTimeout : Duration
}.

(** Field assignments [r.F = v]. *)
Definition set_User (v : string) (r : AlertResponse) : AlertResponse :=
  {| User := v; SSHKey := SSHKey r; SSHPassword := SSHPassword r;
     SSHKnownHosts := SSHKnownHosts r;
     SSHHostKeyAlgorithms := SSHHostKeyAlgorithms r;
     SSHConnectionTimeout := SSHConnectionTimeout r;
     SSHCommandTimeout := SSHCommandTimeout r; SSHHost := SSHHost r;
     SSHCommand := SSHCommand r; LocalCommand := LocalCommand r;
     LocalCommandTimeout := LocalCommandTimeout r |}.

Definition set_SSHKey (v : string) (r : AlertResponse) : AlertResponse :=
  {| User := User r; SSHKey := v; SSHPassword := SSHPassword r;
     SSHKnownHosts := SSHKnownHosts r;
     SSHHostKeyAlgorithms := SSHHostKeyAlgorithms r;
     SSHConnectionTimeout := SSHConnectionTimeout r;
     SSHCommandTimeout := SSHCommandTimeout r; SSHHost := SSHHost r;
     SSHCommand := SSHCommand r; LocalCommand := LocalCommand r;
     LocalCommandTimeout := LocalCommandTimeout r |}.

Definition set_SSHHost (v : string) (r : AlertResponse) : AlertResponse :=
  {| User := User r; SSHKey := SSHKey r; SSHPassword := SSHPassword r;
     SSHKnownHosts := SSHKnownHosts r;
     SSHHostKeyAlgorithms := SSHHostKeyAlgorithms r;
     SSHConnectionTimeout := SSHConnectionTimeout r;
     SSHCommandTimeout := SSHCommandTimeout r; SSHHost := v;
     SSHCommand := SSHCommand r; LocalCommand := LocalCommand r;
     LocalCommandTimeout := LocalCommandTimeout r |}.

Definition set_SSHCommand (v : string) (r : AlertResponse) : AlertResponse :=
  {| User := User r; SSHKey := SSHKey r; SSHPassword := SSHPassword r;
     SSHKnownHosts := SSHKnownHosts r;
     SSHHostKeyAlgorithms := SSHHostKeyAlgorithms r;
     SSHConnectionTimeout := SSHConnectionTimeout r;
     SSHCommandTimeout := SSHCommandTimeout r; SSHHost := SSHHost r;
     SSHCommand := v; LocalCommand := LocalCommand r;
     LocalCommandTimeout := LocalCommandTimeout r |}.

Definition set_SSHCommandTimeout (v : Duration) (r : AlertResponse)
  : AlertResponse :=
  {| User := User r; SSHKey := SSHKey r; SSHPassword := SSHPassword r;
     SSHKnownHosts := SSHKnownHosts r;
     SSHHostKeyAlgorithms := SSHHostKeyAlgorithms r;
     SSHConnectionTimeout := SSHConnectionTimeout r;
     SSHCommandTimeout := v; SSHHost := SSHHost r;
     SSHCommand := SSHCommand r; LocalCommand := LocalCommand r;
     LocalCommandTimeout := LocalCommandTimeout r |}.

Definition set_LocalCommand (v : string) (r : AlertResponse) : AlertResponse :=
  {| User := User r; SSHKey := SSHKey r; SSHPassword := SSHPassword r;
     SSHKnownHosts := SSHKnownHosts r;
     SSHHostKeyAlgorithms := SSHHostKeyAlgorithms r;
     SSHConnectionTimeout := SSHConnectionTimeout r;
     SSHCommandTimeout := SSHCommandTimeout r; SSHHost := SSHHost r;
     SSHCommand := SSHCommand r; LocalCommand := v;
     LocalCommandTimeout := LocalCommandTimeout r |}.

Definition set_LocalCommandTimeout (v : Duration) (r : AlertResponse)
  : AlertResponse :=
  {| User := User r; SSHKey := SSHKey r; SSHPassword := SSHPassword r;
     SSHKnownHosts := SSHKnownHosts r;
     SSHHostKeyAlgorithms := SSHHostKeyAlgorithms r;
     SSHConnectionTimeout := SSHConnectionTimeout r;
     SSHCommandTimeout := SSHCommandTimeout r; SSHHost := SSHHost r;
     SSHCommand := SSHCommand r; LocalCommand := LocalCommand r;
     LocalCommandTimeout := v |}.

(** The zero value of the struct: what [AlertResponse{}] is in Go. *)
Definition AlertResponse_zero : AlertResponse :=
  {| User := ""; SSHKey := ""; SSHPassword := ""; SSHKnownHosts := "";
     SSHHostKeyAlgorithms := []; SSHConnectionTimeout := 0;
     SSHCommandTimeout := 0; SSHHost := ""; SSHCommand := "";
     LocalCommand := ""; LocalCommandTimeout := 0 |}.

(** ** Logging (go-kit log) *)

Inductive Level : Type := LDebug | LInfo | LError.

(** A logged value.  [VElapsed] stands for [time.Since(start).Seconds()],
    a wall-clock reading that the model leaves opaque; [VBase64 b] stands
    for [base64.StdEncoding.EncodeToString(b)]. *)
Inductive LogValue : Type :=
| VStr (s : string)
| VErr (e : Error)
| VBase64 (bytes : string)
| VElapsed.

(** A go-kit logger is the list of key/value pairs that [log.With] has
    attached to it so far; they precede the pairs of each line. *)
Definition Logger : Type := list (string * LogValue).

Definition log_With (logger : Logger) (kvs : list (string * LogValue)) : Logger :=
  logger ++ kvs.

Record LogEntry : Type := {
  lvl : Level;
  fields : list (string * LogValue)
}.

(** The alert.  [template.Alert] is embedded in the Go struct; of its fields
    the code reads [Fingerprint], [Labels] and [Annotations] (the latter two
    are [template.KV], a [map[string]string]). *)
Record Alert : Type := {
  Fingerprint : string;
  Labels : gmap string string;
  Annotations : gmap string string;
  logger : Logger;
  Response : AlertResponse
}.

(** alert.go, lines 55-60. *)
Definition Name (a : Alert) : string :=
  match Labels a !! "alertname" with
  | Some val => val
  | None => Fingerprint a
  end.

(** ** State: what the code writes *)

(** Ghost events: the calls the code makes to the outside, in order. *)
Inductive Event : Type :=
| EvRunLocalCommand                       (* runLocalCommand entered *)
| EvRunSSHCommand                         (* runSSHCommand entered *)
| EvExec (name : string) (args : list string) (deadline : Duration)
| EvReadFile (path : string)
| EvKnownHostsNew (path : string)
| EvDial (network addr : string)
| EvNewSession
| EvSessionRun (cmd : string)
| EvClose.

(** Modelled from the spec: [metrics.CommandErrorsTotal] (package
    internal/metrics, outside package alert) is "a monotonic counter keyed
    by type"; it is a map from the value of the label [type] to the count,
    an absent label counting as 0. *)
Record State : Type := {
  CommandErrorsTotal : gmap string nat;
  logs : list LogEntry;
  trace : list Event
}.

Definition counter (st : State) (type : string) : nat :=
  default 0%nat (CommandErrorsTotal st !! type).

(** ** The state monad *)

Definition M (A : Type) : Type := State -> A * State.

Definition ret {A : Type} (x : A) : M A := fun st => (x, st).

Definition bind {A B : Type} (c : M A) (k : A -> M B) : M B :=
  fun st => let (x, st') := c st in k x st'.

Notation "x <- c ;; k" := (bind c (fun x => k))
  (at level 100, c at next level, right associativity).
Notation "c ;; k" := (bind c (fun _ => k))
  (at level 100, right associativity).

(** [level.X(logger).Log(kvs...)] *)
Definition Log (l : Level) (logger : Logger) (kvs : list (string * LogValue))
  : M unit :=
  fun st => (tt, {| CommandErrorsTotal := CommandErrorsTotal st;
                    logs := logs st ++ [{| lvl := l; fields := logger ++ kvs |}];
                    trace := trace st |}).

(** [metrics.CommandErrorsTotal.With(prometheus.Labels{"type": type}).Inc()] *)
Definition Inc (type : string) : M unit :=
  fun st => (tt, {| CommandErrorsTotal :=
                      <[type := S (counter st type)]> (CommandErrorsTotal st);
                    logs := logs st;
                    trace := trace st |}).

Definition emit (ev : Event) : M unit :=
  fun st => (tt, {| CommandErrorsTotal := CommandErrorsTotal st;
                    logs := logs st;
                    trace := trace st ++ [ev] |}).

(** ** Environment: what the code asks of the outside *)

(** What [cmd.Run()] of a command built by [execCommand(ctx, name, args...)]
    leaves behind: whether the deadline of [ctx] has passed when it returns,
    the error it returns, and what the process wrote. *)
Record ExecResult : Type := {
  ctx_deadline_exceeded : bool;
  run_error : option Error;
  exec_stdout : string;
  exec_stderr : string
}.

(** What the network does on [ssh.Dial]: the dial fails before any host key
    is seen, or the server at [remote] presents [key] and, if the host-key
    callback accepts it, the rest of the handshake ends as [rest]. *)
Inductive DialScript : Type :=
| DialFails (err : Error)
| DialHostKey (remote : string) (key : PublicKey) (rest : option Error).

(** What the worker goroutine of runSSHCommand meets: the result of
    [conn.NewSession()], the result and the output of [session.Run], and
    whether its send on [c1] (if it gets that far with [timeout] still
    false) is received before [time.After] fires. *)
Record SessionScript : Type := {
  new_session_error : option Error;
  session_run_error : option Error;
  session_stdout : string;
  session_stderr : string;
  worker_before_timer : bool
}.

(** A parsed known-hosts file: a mapping from a hostname to the keys
    accepted for it. *)
Definition KnownHostsDB : Type := string -> list PublicKey.

Record Env : Type := {
  (* time.ParseDuration *)
  time_ParseDuration : string -> Error + Duration;
  (* execCommand(ctx, name, args...).Run(), ctx having the given timeout *)
  execCommand_Run : string -> list string -> Duration -> ExecResult;
  (* os.ReadFile *)
  os_ReadFile : string -> Error + string;
  (* ssh.ParsePrivateKey *)
  ssh_ParsePrivateKey : string -> Error + Signer;
  (* reading and parsing the known-hosts file at a path *)
  knownhosts_file : string -> Error + KnownHostsDB;
  (* network, addr, user, auth, host-key algorithms, dial timeout *)
  dial_script : string -> string -> string -> list AuthMethod ->
                list string -> Duration -> DialScript;
  (* addr, command, command timeout *)
  session_script : string -> string -> Duration -> SessionScript
}.

(** ** The parts of x/crypto/ssh the code calls *)

(** ssh.HostKeyCallback: hostname, remote address, key. *)
Definition HostKeyCallback : Type :=
  string -> string -> PublicKey -> M (option Error).

(** ssh.InsecureIgnoreHostKey() *)
Definition ssh_InsecureIgnoreHostKey : HostKeyCallback :=
  fun _ _ _ => ret None.

(** The callback that knownhosts.New builds from a parsed file: it accepts
    a key exactly when the file lists it for the hostname. *)
Definition knownhosts_check (db : KnownHostsDB) : HostKeyCallback :=
  fun hostname _ key =>
    if decide (key ∈ db hostname) then ret None
    else ret (Some "knownhosts: key is unknown").

(** knownhosts.New(path): fails when the file cannot be read or parsed. *)
Definition knownhosts_New (env : Env) (path : string)
  : M (Error + HostKeyCallback) :=
  emit (EvKnownHostsNew path);;
  match knownhosts_file env path with
  | inl err => ret (inl err)
  | inr db => ret (inr (knownhosts_check db))
  end.

(** ssh.ClientConfig, the fields the code sets. *)
Record ClientConfig : Type := {
  cc_User : string;
  cc_Auth : list AuthMethod;
  cc_HostKeyCallback : HostKeyCallback;
  cc_HostKeyAlgorithms : list string;
  cc_Timeout : Duration
}.

(** *ssh.Client *)
Record Client : Type := { client_addr : string }.

(** ssh.Dial(network, addr, config): the host-key callback of the config is
    called with the dialled address as hostname when the server presents its
    key, and its error fails the handshake. *)
Definition ssh_Dial (env : Env) (network addr : string) (cfg : ClientConfig)
  : M (Error + Client) :=
  emit (EvDial network addr);;
  match dial_script env network addr (cc_User cfg) (cc_Auth cfg)
                    (cc_HostKeyAlgorithms cfg) (cc_Timeout cfg) with
  | DialFails err => ret (inl err)
  | DialHostKey remote key rest =>
      verdict <- cc_HostKeyCallback cfg addr remote key;;
      match verdict with
      | Some err => ret (inl ("ssh: handshake failed: " +:+ err))
      | None =>
          match rest with
          | Some err => ret (inl err)
          | None => ret (inr {| client_addr := addr |})
          end
      end
  end.

(** ** commands.go *)

(** runLocalCommand (lines 38-59).  [execCommand] is called with the command
    string as its only argument after the context: the string is the name of
    the program, and there are no arguments. *)
Definition runLocalCommand (env : Env) (r : AlertResponse) (logger : Logger)
  : M (option Error) :=
  emit EvRunLocalCommand;;
  Log LInfo logger [("msg", VStr "Running local command")];;
  let errorsTotalLabels := "local" in
  emit (EvExec (LocalCommand r) [] (LocalCommandTimeout r));;
  let cmd := execCommand_Run env (LocalCommand r) [] (LocalCommandTimeout r) in
  if ctx_deadline_exceeded cmd then
    Log LError logger [("msg", VStr "Local command timed out")];;
    Inc errorsTotalLabels;;
    ret (Some ("Local command timed out: " +:+ LocalCommand r))
  else
    match run_error cmd with
    | Some err =>
        Log LError logger [("msg", VStr "Error executing command");
                           ("err", VErr err)];;
        Inc errorsTotalLabels;;
        ret (Some err)
    | None =>
        Log LInfo logger [("msg", VStr "Local command completed");
                          ("out", VStr (exec_stdout cmd));
                          ("err", VStr (exec_stderr cmd))];;
        ret None
    end.

(** getPrivateKeyAuth (lines 136-146) *)
Definition getPrivateKeyAuth (env : Env) (privatekey : string)
  : M (Error + AuthMethod) :=
  emit (EvReadFile privatekey);;
  match os_ReadFile env privatekey with
  | inl err => ret (inl err)
  | inr buffer =>
      match ssh_ParsePrivateKey env buffer with
      | inl err => ret (inl err)
      | inr key => ret (inr (AuthPublicKeys key))
      end
  end.

(** hostKeyCallback (lines 148-166) *)
Definition hostKeyCallback (env : Env) (knownHosts : string) (logger : Logger)
  : HostKeyCallback :=
  fun hostname remote key =>
    if decide (knownHosts ≠ "") then
      let publicKey := VBase64 key in
      Log LDebug logger [("msg", VStr "Verify SSH known hosts");
                         ("hostname", VStr hostname);
                         ("remote", VStr remote);
                         ("key", publicKey)];;
      res <- knownhosts_New env knownHosts;;
      match res with
      | inl err =>
          Log LError logger
              [("msg", VStr "Error creating hostkeycallback function");
               ("err", VErr err)];;
          Inc "ssh";;
          ret (Some err)
      | inr hostKeyCallback => hostKeyCallback hostname remote key
      end
    else
      ssh_InsecureIgnoreHostKey hostname remote key.

(** The goroutine of runSSHCommand (lines 94-109), run up to the point where
    the [select] of the main flow is decided.  It yields the values of the
    shared variables [sessionerror] and [commanderror] and whether a value
    was received from [c1]: the goroutine sends only after both calls
    returned nil, and the send is received only if it comes before the
    timer.  What the goroutine does after the main flow has returned is
    outside this sequential model. *)
Definition ssh_worker (env : Env) (r : AlertResponse)
  : M (option Error * option Error * bool) :=
  let s := session_script env (SSHHost r) (SSHCommand r) (SSHCommandTimeout r) in
  emit EvNewSession;;
  match new_session_error s with
  | Some sessionerror => ret (Some sessionerror, None, false)
  | None =>
      emit (EvSessionRun (SSHCommand r));;
      match session_run_error s with
      | Some commanderror => ret (None, Some commanderror, false)
      | None => ret (None, None, worker_before_timer s)
      end
  end.

(** runSSHCommand (lines 61-134) *)
Definition runSSHCommand (env : Env) (r : AlertResponse) (logger : Logger)
  : M (option Error) :=
  emit EvRunSSHCommand;;
  Log LInfo logger [("msg", VStr "Running SSH command")];;
  let errorsTotalLabels := "ssh" in
  authres <-
    (if decide (SSHKey r ≠ "") then getPrivateKeyAuth env (SSHKey r)
     else if decide (SSHPassword r ≠ "") then
       ret (inr (AuthPassword (SSHPassword r)))
     else ret (inr AuthNil));;
  match authres with
  | inl err =>
      Log LError logger [("msg", VStr "Error setting up private key auth");
                         ("err", VErr err)];;
      ret (Some err)
  | inr auth =>
      let sshConfig :=
        {| cc_User := User r;
           cc_Auth := [auth];
           cc_HostKeyCallback := hostKeyCallback env (SSHKnownHosts r) logger;
           cc_HostKeyAlgorithms := SSHHostKeyAlgorithms r;
           cc_Timeout := SSHConnectionTimeout r |} in
      dialres <- ssh_Dial env "tcp" (SSHHost r) sshConfig;;
      match dialres with
      | inl err =>
          Log LError logger [("msg", VStr "Failed to establish SSH connection");
                             ("err", VErr err)];;
          Inc errorsTotalLabels;;
          ret (Some err)
      | inr connection =>
          (* defer connection.Close(): [emit EvClose] before each return *)
          w <- ssh_worker env r;;
          let '(sessionerror, commanderror, received) := w in
          if received : bool then
            (* case <-c1 *)
            match sessionerror with
            | Some err =>
                Log LError logger
                    [("msg", VStr "Failed to establish SSH session");
                     ("err", VErr err)];;
                Inc errorsTotalLabels;;
                emit EvClose;;
                ret (Some err)
            | None =>
                match commanderror with
                | Some err =>
                    Log LError logger
                        [("msg", VStr "Failed to run SSH command");
                         ("err", VErr err)];;
                    Inc errorsTotalLabels;;
                    emit EvClose;;
                    ret (Some err)
                | None =>
                    let s := session_script env (SSHHost r) (SSHCommand r)
                                            (SSHCommandTimeout r) in
                    Log LInfo logger
                        [("msg", VStr "SSH command completed");
                         ("out", VStr (session_stdout s));
                         ("err", VStr (session_stderr s))];;
                    emit EvClose;;
                    ret None
                end
            end
          else
            (* case <-time.After(r.SSHCommandTimeout) *)
            Log LError logger [("msg", VStr "Timeout executing SSH command")];;
            Inc errorsTotalLabels;;
            emit EvClose;;
            ret (Some ("Timeout executing SSH command: " +:+ SSHCommand r))
      end
  end.

(** ** alert.go: HandleAlert *)

(** Lines 65-104: the response is built from the configuration and then
    overridden from the annotations.  The composite literal names seven
    fields; the others ([SSHConnectionTimeout], [SSHHost], [SSHCommand],
    [LocalCommand]) keep the zero value. *)
Definition resolveResponse (env : Env) (c : config.Config) (alogger : Logger)
    (a : Alert) : M AlertResponse :=
  let r := {| User := config.User c;
              SSHKey := config.SSHKey c;
              SSHPassword := config.SSHPassword c;
              SSHKnownHosts := config.SSHKnownHosts c;
              SSHHostKeyAlgorithms := config.SSHHostKeyAlgorithms c;
              SSHConnectionTimeout := SSHConnectionTimeout AlertResponse_zero;
              SSHCommandTimeout := config.SSHCommandTimeout c;
              SSHHost := SSHHost AlertResponse_zero;
              SSHCommand := SSHCommand AlertResponse_zero;
              LocalCommand := LocalCommand AlertResponse_zero;
              LocalCommandTimeout := config.LocalCommandTimeout c |} in
  let r := match Annotations a !! userAnnotation with
           | Some val => set_User val r | None => r end in
  let r := match Annotations a !! sshKeyAnnotation with
           | Some val => set_SSHKey val r | None => r end in
  let r := match Annotations a !! sshHostAnnotation with
           | Some val => set_SSHHost val r | None => r end in
  let r := match Annotations a !! sshCommandAnnotation with
           | Some val => set_SSHCommand val r | None => r end in
  r <- match Annotations a !! sshCommandTimeout with
       | Some val =>
           match time_ParseDuration env val with
           | inr timeout => ret (set_SSHCommandTimeout timeout r)
           | inl err =>
               Log LError alogger
                   [("msg", VStr "Unable to parse SSH command timeout");
                    ("err", VErr err); ("timeout", VStr val)];;
               ret r
           end
       | None => ret r
       end;;
  let r := match Annotations a !! localCommandAnnotation with
           | Some val => set_LocalCommand val r | None => r end in
  match Annotations a !! localCommandTimeout with
  | Some val =>
      match time_ParseDuration env val with
      | inr timeout => ret (set_LocalCommandTimeout timeout r)
      | inl err =>
          Log LError alogger
              [("msg", VStr "Unable to parse local command timeout");
               ("err", VErr err); ("timeout", VStr val)];;
          ret r
      end
  | None => ret r
  end.

(** Line 110 *)
Definition localLogger (alogger : Logger) (r : AlertResponse) : Logger :=
  log_With alogger [("type", VStr "local");
                    ("command", VStr (LocalCommand r))].

(** Lines 118-119 *)
Definition sshLogger (alogger : Logger) (r : AlertResponse) : Logger :=
  log_With alogger [("type", VStr "ssh"); ("user", VStr (User r));
                    ("ssh_key", VStr (SSHKey r));
                    ("ssh_host", VStr (SSHHost r));
                    ("command", VStr (SSHCommand r))].

(** Lines 109-116: the body of [if a.Response.LocalCommand != ""]; its
    value is what it assigns to [err]. *)
Definition local_path (env : Env) (alogger : Logger) (r : AlertResponse)
  : M (option Error) :=
  let localLogger := localLogger alogger r in
  err <- runLocalCommand env r localLogger;;
  match err with
  | Some e => Log LError localLogger
                  [("msg", VStr "Failed to run local command");
                   ("err", VErr e)]
  | None => ret tt
  end;;
  Log LInfo localLogger [("msg", VStr "Command completed");
                         ("duration", VElapsed)];;
  ret err.

(** Lines 117-125: the body of [if a.Response.SSHCommand != ""]; its value
    is what it assigns to [err]. *)
Definition ssh_path (env : Env) (alogger : Logger) (r : AlertResponse)
  : M (option Error) :=
  let sshLogger := sshLogger alogger r in
  err <- runSSHCommand env r sshLogger;;
  match err with
  | Some e => Log LError sshLogger
                  [("msg", VStr "Failed to run SSH command");
                   ("err", VErr e)]
  | None => ret tt
  end;;
  Log LInfo sshLogger [("msg", VStr "Command completed");
                       ("duration", VElapsed)];;
  ret err.

(** Lines 107-126: the dispatch.  [err] is one variable, nil at first,
    assigned by each path that runs and returned at the end. *)
Definition dispatch (env : Env) (alogger : Logger) (r : AlertResponse)
  : M (option Error) :=
  let err : option Error := None in
  err <- (if decide (LocalCommand r ≠ "") then local_path env alogger r
          else ret err);;
  err <- (if decide (SSHCommand r ≠ "") then ssh_path env alogger r
          else ret err);;
  ret err.

(** Line 63: the logger that [HandleAlert] stores in the alert. *)
Definition alert_logger (logger0 : Logger) (a : Alert) : Logger :=
  log_With logger0 [("alert", VStr (Fingerprint a));
                    ("alertname", VStr (Name a))].

(** HandleAlert (lines 62-127).  The receiver is updated ([a.logger],
    [a.Response]); the updated alert is returned with the error. *)
Definition HandleAlert (env : Env) (c : config.Config) (logger0 : Logger)
    (a : Alert) : M (Alert * option Error) :=
  let alogger := alert_logger logger0 a in
  Log LDebug alogger [("msg", VStr "Handling alert")];;
  r <- resolveResponse env c alogger a;;
  let a' := {| Fingerprint := Fingerprint a; Labels := Labels a;
               Annotations := Annotations a; logger := alogger;
               Response := r |} in
  err <- dispatch env alogger r;;
  ret (a', err).

(** ** A sample environment

    One concrete world, used to run the code on concrete inputs: a POSIX
    host with a shell and the usual programs on its path, one reachable SSH
    server and a few files.  The tables are finite samples of what the
    outside does, not definitions of it. *)

Module Sample.

Definition nl : string := String (Ascii.ascii_of_nat 10) EmptyString.

Definition ParseDuration (s : string) : Error + Duration :=
  if decide (s = "1s") then inr Second
  else if decide (s = "30s") then inr (30 * Second)
  else if decide (s = "2m") then inr (120 * Second)
  else inl ("time: invalid duration " +:+ s).

Definition completed (out : string) : ExecResult :=
  {| ctx_deadline_exceeded := false; run_error := None;
     exec_stdout := out; exec_stderr := "" |}.

Definition failed (err : Error) : ExecResult :=
  {| ctx_deadline_exceeded := false; run_error := Some err;
     exec_stdout := ""; exec_stderr := "" |}.

(** The programs found on the path.  There is a shell and there is [echo];
    there is no program whose file name is [echo hi]. *)
Definition Run (name : string) (args : list string) (deadline : Duration)
  : ExecResult :=
  if decide (name = "sh" ∧ args = ["-c"; "echo hi"]) then completed ("hi" +:+ nl)
  else if decide (name = "echo" ∧ args = ["hi"]) then completed ("hi" +:+ nl)
  else if decide (name = "true") then completed ""
  else if decide (name = "false") then failed "exit status 1"
  else if decide (name = "yes") then
    {| ctx_deadline_exceeded := true; run_error := Some "signal: killed";
       exec_stdout := "y" +:+ nl; exec_stderr := "" |}
  else failed ("exec: " +:+ name +:+ ": executable file not found in $PATH").

Definition ReadFile (path : string) : Error + string :=
  if decide (path = "/etc/responder/id_ed25519") then inr "OPENSSH PRIVATE KEY"
  else if decide (path = "/etc/responder/notes.txt") then inr "not a key"
  else inl ("open " +:+ path +:+ ": no such file or directory").

Definition ParsePrivateKey (buffer : string) : Error + Signer :=
  if decide (buffer = "OPENSSH PRIVATE KEY") then inr (MkSigner buffer)
  else inl "ssh: no key found".

Definition known_hosts (path : string) : Error + KnownHostsDB :=
  if decide (path = "/etc/responder/known_hosts") then
    inr (fun hostname =>
           if decide (hostname = "db1.example.org:22") then ["ssh-ed25519 AAAA-db1"]
           else [])
  else if decide (path = "/etc/responder/known_hosts.broken") then
    inl "knownhosts: /etc/responder/known_hosts.broken:1: illegal base64 data"
  else inl ("open " +:+ path +:+ ": no such file or directory").

Definition dial (network addr user : string) (auth : list AuthMethod)
    (algos : list string) (timeout : Duration) : DialScript :=
  if decide (addr = "db1.example.org:22") then
    DialHostKey "192.0.2.10:22" "ssh-ed25519 AAAA-db1" None
  else DialFails ("dial tcp: lookup " +:+ addr +:+ ": no such host").

Definition session (addr cmd : string) (timeout : Duration) : SessionScript :=
  if decide (cmd = "uptime") then
    {| new_session_error := None; session_run_error := None;
       session_stdout := "up 3 days"; session_stderr := "";
       worker_before_timer := true |}
  else if decide (cmd = "sleep 3600") then
    {| new_session_error := None; session_run_error := None;
       session_stdout := ""; session_stderr := "";
       worker_before_timer := false |}
  else
    {| new_session_error := None;
       session_run_error := Some "Process exited with status 127";
       session_stdout := ""; session_stderr := "command not found";
       worker_before_timer := false |}.

Definition env : Env :=
  {| time_ParseDuration := ParseDuration;
     execCommand_Run := Run;
     os_ReadFile := ReadFile;
     ssh_ParsePrivateKey := ParsePrivateKey;
     knownhosts_file := known_hosts;
     dial_script := dial;
     session_script := session |}.

Definition cfg : config.Config :=
  {| config.User := "responder";
     config.SSHKey := "/etc/responder/id_ed25519";
     config.SSHPassword := "";
     config.SSHKnownHosts := "";
     config.SSHHostKeyAlgorithms := [];
     config.SSHConnectionTimeout := 10 * Second;
     config.SSHCommandTimeout := 60 * Second;
     config.LocalCommandTimeout := 30 * Second |}.

Definition st0 : State :=
  {| CommandErrorsTotal := ∅; logs := []; trace := [] |}.

Definition alert (annotations : list (string * string)) : Alert :=
  {| Fingerprint := "3f1c9a";
     Labels := {[ "alertname" := "DiskFull" ]};
     Annotations := list_to_map annotations;
     logger := [];
     Response := AlertResponse_zero |}.

(** Resolved responses for the SSH executor: password authentication
    against the reachable server. *)
Definition ssh_response : AlertResponse :=
  {| User := "responder"; SSHKey := ""; SSHPassword := "secret";
     SSHKnownHosts := ""; SSHHostKeyAlgorithms := [];
     SSHConnectionTimeout := 0; SSHCommandTimeout := 60 * Second;
     SSHHost := "db1.example.org:22"; SSHCommand := "uptime";
     LocalCommand := ""; LocalCommandTimeout := 30 * Second |}.

Definition set_SSHKnownHosts (v : string) (r : AlertResponse) : AlertResponse :=
  {| User := User r; SSHKey := SSHKey r; SSHPassword := SSHPassword r;
     SSHKnownHosts := v;
     SSHHostKeyAlgorithms := SSHHostKeyAlgorithms r;
     SSHConnectionTimeout := SSHConnectionTimeout r;
     SSHCommandTimeout := SSHCommandTimeout r; SSHHost := SSHHost r;
     SSHCommand := SSHCommand r; LocalCommand := LocalCommand r;
     LocalCommandTimeout := LocalCommandTimeout r |}.

(** The key file does not exist. *)
Definition missing_key_response : AlertResponse :=
  set_SSHKey "/etc/responder/id_rsa" ssh_response.

(** The known-hosts file does not parse. *)
Definition broken_known_hosts_response : AlertResponse :=
  set_SSHKnownHosts "/etc/responder/known_hosts.broken" ssh_response.

(** A local command that fails and an SSH command that succeeds. *)
Definition both_response : AlertResponse :=
  set_LocalCommand "false" ssh_response.

(** The alert of the end-to-end scenario. *)
Definition echo_alert : Alert := alert [(localCommandAnnotation, "echo hi")].

(** An alert that runs an SSH command and sets the key annotation to the
    empty string. *)
Definition no_key_alert : Alert :=
  alert [(sshKeyAnnotation, ""); (sshCommandAnnotation, "uptime");
         (sshHostAnnotation, "db1.example.org:22")].

(** An alert whose SSH command timeout does not parse. *)
Definition malformed_alert : Alert :=
  alert [(sshCommandTimeout, "soon"); (localCommandAnnotation, "true")].

End Sample.

(** ** More scenarios on the sample host *)

Module Drill.


(** A host that does not resolve. *)
Definition unreachable_response : AlertResponse :=
  set_SSHHost "gone.example.org:22" Sample.ssh_response.




(** A local command with a 1s timeout annotation. *)
Definition quick_alert : Alert :=
  Sample.alert [(localCommandAnnotation, "true"); (localCommandTimeout, "1s")].

(** The alert of the end-to-end scenario again, from another source: other
    fingerprint, other labels, one more annotation. *)
Definition other_echo_alert : Alert :=
  {| Fingerprint := "77aa01";
     Labels := {[ "severity" := "page" ]};
     Annotations := {[ localCommandAnnotation := "echo hi";
                       "summary" := "disk is full" ]};
     logger := [];
     Response := AlertResponse_zero |}.

(** A state in which alerts were handled before. *)
Definition later_state : State :=
  {| CommandErrorsTotal := {[ "local" := 5%nat ]};
     logs := [];
     trace := [EvRunLocalCommand; EvExec "true" [] (30 * Second)] |}.

End Drill.

(** ** Vocabulary of the properties *)

(** A string field: the annotation when its key is present, else [d]. *)
Definition override (d : string) (a : Alert) (key : string) : string :=
  default d (Annotations a !! key).

(** A duration field: the parsed annotation when its key is present and the
    value parses, else [d]. *)
Definition override_duration (env : Env) (d : Duration) (a : Alert)
    (key : string) : Duration :=
  match Annotations a !! key with
  | Some val =>
      match time_ParseDuration env val with
      | inr timeout => timeout
      | inl _ => d
      end
  | None => d
  end.

(** The resolver's log lines: one for each timeout annotation that does not
    parse, the SSH one first. *)
Definition parse_failure_line (lg : Logger) (msg : string) (err : Error)
    (val : string) : LogEntry :=
  {| lvl := LError;
     fields := lg ++ [("msg", VStr msg); ("err", VErr err);
                      ("timeout", VStr val)] |}.

Definition parse_failure_lines (env : Env) (lg : Logger) (a : Alert)
    (key msg : string) : list LogEntry :=
  match Annotations a !! key with
  | Some val =>
      match time_ParseDuration env val with
      | inl err => [parse_failure_line lg msg err val]
      | inr _ => []
      end
  | None => []
  end.

(** The two timeout fields that an annotation can override. *)
Inductive TimeoutField : Type := SSHTimeout | LocalTimeout.

Definition timeout_key (f : TimeoutField) : string :=
  match f with
  | SSHTimeout => sshCommandTimeout
  | LocalTimeout => localCommandTimeout
  end.

Definition timeout_value (f : TimeoutField) (r : AlertResponse) : Duration :=
  match f with
  | SSHTimeout => SSHCommandTimeout r
  | LocalTimeout => LocalCommandTimeout r
  end.

Definition timeout_default (f : TimeoutField) (c : config.Config) : Duration :=
  match f with
  | SSHTimeout => config.SSHCommandTimeout c
  | LocalTimeout => config.LocalCommandTimeout c
  end.

Definition timeout_message (f : TimeoutField) : string :=
  match f with
  | SSHTimeout => "Unable to parse SSH command timeout"
  | LocalTimeout => "Unable to parse local command timeout"
  end.

(** The state in which the SSH path starts. *)
Definition after_local (env : Env) (lg : Logger) (r : AlertResponse)
    (st : State) : State :=
  if decide (LocalCommand r ≠ "") then snd (local_path env lg r st) else st.

(** The private key at [path] cannot be read, or is read and cannot be
    parsed; [err] is the error of the step that fails. *)
Definition key_unusable (env : Env) (path : string) (err : Error) : Prop :=
  os_ReadFile env path = inl err
  ∨ ∃ buffer, os_ReadFile env path = inr buffer
              ∧ ssh_ParsePrivateKey env buffer = inl err.

(** The authentication selection succeeds: no key file is configured, or
    the configured one is read and parsed. *)
Definition key_usable (env : Env) (path : string) : Prop :=
  path = ""
  ∨ ∃ buffer key, os_ReadFile env path = inr buffer
                  ∧ ssh_ParsePrivateKey env buffer = inr key.

(** The known-hosts file at [path] lists [key] for [hostname]. *)
Definition known_hosts_entry (env : Env) (path hostname : string)
    (key : PublicKey) : Prop :=
  ∃ db, knownhosts_file env path = inr db ∧ key ∈ db hostname.

(** [st'] comes after [st]: the log and the trace are only appended to, and
    no counter has gone down. *)
Definition extends (st st' : State) : Prop :=
  (∃ l, logs st' = logs st ++ l)
  ∧ (∃ t, trace st' = trace st ++ t)
  ∧ (∀ type, (counter st type ≤ counter st' type)%nat).

(** A computation after which the state has only grown. *)
Definition grows {A : Type} (c : M A) : Prop :=
  ∀ st, extends st (snd (c st)).

(** ** Vocabulary of the further properties *)

(** The place of an event in the order in which one dispatch acts on the
    outside: the local executor and its launch, then the SSH executor, its
    key file, its dial, the known-hosts file, the session, the run and the
    close. *)
Definition rank (ev : Event) : nat :=
  match ev with
  | EvRunLocalCommand => 0
  | EvExec _ _ _ => 1
  | EvRunSSHCommand => 2
  | EvReadFile _ => 3
  | EvDial _ _ => 4
  | EvKnownHostsNew _ => 5
  | EvNewSession => 6
  | EvSessionRun _ => 7
  | EvClose => 8
  end%nat.

(** A list of ranks that goes strictly up. *)
Fixpoint increasing (l : list nat) : bool :=
  match l with
  | x :: (y :: _) as l' => (x <? y)%nat && increasing l'
  | _ => true
  end.

(** Whether an event of a given rank is in a trace. *)
Definition occurs (n : nat) (t : list Event) : bool :=
  existsb (fun ev => (rank ev =? n)%nat) t.

Definition runs_local (t : list Event) : bool := occurs 0 t.
Definition launches (t : list Event) : bool := occurs 1 t.
Definition runs_ssh (t : list Event) : bool := occurs 2 t.
Definition reads_key (t : list Event) : bool := occurs 3 t.
Definition opens_session (t : list Event) : bool := occurs 6 t.
Definition closes (t : list Event) : bool := occurs 8 t.

(** What the events of one SSH attempt may act on: the files, the host and
    the command of the response, and nothing of the local executor. *)
Definition ssh_event_of (r : AlertResponse) (ev : Event) : Prop :=
  match ev with
  | EvRunSSHCommand | EvNewSession | EvClose => True
  | EvReadFile path => path = SSHKey r
  | EvDial network addr => network = "tcp" ∧ addr = SSHHost r
  | EvKnownHostsNew path => path = SSHKnownHosts r
  | EvSessionRun cmd => cmd = SSHCommand r
  | EvRunLocalCommand | EvExec _ _ _ => False
  end.

(** What the events of one dispatch may act on. *)
Definition event_of (r : AlertResponse) (ev : Event) : Prop :=
  match ev with
  | EvRunLocalCommand => True
  | EvExec name args deadline =>
      name = LocalCommand r ∧ args = [] ∧ deadline = LocalCommandTimeout r
  | _ => ssh_event_of r ev
  end.

(** What an event of [HandleAlert] may act on, in terms of the configuration
    and the annotations of the alert. *)
Definition acts_on (env : Env) (c : config.Config) (a : Alert) (ev : Event)
  : Prop :=
  match ev with
  | EvExec name args deadline =>
      name = override "" a localCommandAnnotation
      ∧ args = []
      ∧ deadline = override_duration env (config.LocalCommandTimeout c) a
                                     localCommandTimeout
  | EvReadFile path => path = override (config.SSHKey c) a sshKeyAnnotation
  | EvDial network addr =>
      network = "tcp" ∧ addr = override "" a sshHostAnnotation
  | EvKnownHostsNew path => path = config.SSHKnownHosts c
  | EvSessionRun cmd => cmd = override "" a sshCommandAnnotation
  | _ => True
  end.



(** The seven annotation keys that the resolver reads. *)
Definition annotation_keys : list string :=
  [userAnnotation; sshKeyAnnotation; sshHostAnnotation; sshCommandAnnotation;
   sshCommandTimeout; localCommandAnnotation; localCommandTimeout].

(** Every line of [l] starts with the pairs of [lg]. *)
Definition lines_of (lg : Logger) (l : list LogEntry) : Prop :=
  Forall (fun e => ∃ kvs, fields e = lg ++ kvs) l.

(** A computation whose log lines all start with the pairs of [lg]. *)
Definition logs_as {A : Type} (lg : Logger) (c : M A) : Prop :=
  ∀ st, ∃ l, logs (snd (c st)) = logs st ++ l ∧ lines_of lg l.

(** From [st] to [st1] and from [st'] to [st1'] the same events were added
    to the trace and every counter went up by the same amount. *)
Definition same_change (st st1 st' st1' : State) : Prop :=
  (∃ t, trace st1 = trace st ++ t ∧ trace st1' = trace st' ++ t)
  ∧ (∀ type, (counter st1 type + counter st' type =
              counter st1' type + counter st type)%nat).

(** Two computations that return the same value and change the counter and
    the trace in the same way, whatever states they start from. *)
Definition same_effect {A : Type} (c c' : M A) : Prop :=
  ∀ st st', fst (c st) = fst (c' st')
            ∧ same_change st (snd (c st)) st' (snd (c' st')).

(** The key file read of an attempt: one read exactly when [SSHKey] is
    set. *)
Definition key_read (r : AlertResponse) : list Event :=
  if decide (SSHKey r ≠ "") then [EvReadFile (SSHKey r)] else [].


(** The launch of the local command passes its deadline or returns an
    error. *)
Definition local_failure (env : Env) (r : AlertResponse) : bool :=
  let cmd := execCommand_Run env (LocalCommand r) [] (LocalCommandTimeout r) in
  ctx_deadline_exceeded cmd || bool_decide (is_Some (run_error cmd)).

(** * Properties *)

(** ** Stepping through the monad *)

Ltac mstep :=
  unfold bind, ret, Log, Inc, emit in *; simpl in *.

Ltac msplit :=
  repeat (first [ case_decide | case_match ]; simpl in *; simplify_eq).

Ltac ssh_unfold :=
  unfold runSSHCommand, getPrivateKeyAuth, ssh_Dial, hostKeyCallback,
    knownhosts_New, knownhosts_check, ssh_InsecureIgnoreHostKey, ssh_worker.

Ltac counter_simpl :=
  unfold counter in *; simpl in *; rewrite ?lookup_insert_eq; simpl.

Lemma counter_Inc_eq (type : string) (st : State) :
  counter (snd (Inc type st)) type = S (counter st type).
Proof. unfold counter, Inc; simpl. by rewrite lookup_insert_eq. Qed.

Lemma counter_Inc_ne (type type' : string) (st : State) :
  type ≠ type' -> counter (snd (Inc type st)) type' = counter st type'.
Proof. intros Hne. unfold counter at 1, Inc; simpl. by rewrite lookup_insert_ne. Qed.

(** ** The resolver, field by field *)

Lemma resolveResponse_value env c lg a st :
  fst (resolveResponse env c lg a st) =
  {| User := override (config.User c) a userAnnotation;
     SSHKey := override (config.SSHKey c) a sshKeyAnnotation;
     SSHPassword := config.SSHPassword c;
     SSHKnownHosts := config.SSHKnownHosts c;
     SSHHostKeyAlgorithms := config.SSHHostKeyAlgorithms c;
     SSHConnectionTimeout := 0;
     SSHCommandTimeout :=
       override_duration env (config.SSHCommandTimeout c) a sshCommandTimeout;
     SSHHost := override "" a sshHostAnnotation;
     SSHCommand := override "" a sshCommandAnnotation;
     LocalCommand := override "" a localCommandAnnotation;
     LocalCommandTimeout :=
       override_duration env (config.LocalCommandTimeout c) a
                         localCommandTimeout |}.
Proof.
  unfold resolveResponse, override, override_duration.
  destruct (Annotations a !! userAnnotation);
    destruct (Annotations a !! sshKeyAnnotation);
    destruct (Annotations a !! sshHostAnnotation);
    destruct (Annotations a !! sshCommandAnnotation);
    destruct (Annotations a !! localCommandAnnotation);
    destruct (Annotations a !! sshCommandTimeout) as [v1|];
    destruct (Annotations a !! localCommandTimeout) as [v2|];
    mstep;
    try destruct (time_ParseDuration env v1);
    try destruct (time_ParseDuration env v2);
    reflexivity.
Qed.

(** The resolver writes log lines only: the counter and the trace are kept. *)
Lemma resolveResponse_state env c lg a st :
  CommandErrorsTotal (snd (resolveResponse env c lg a st)) = CommandErrorsTotal st
  ∧ trace (snd (resolveResponse env c lg a st)) = trace st.
Proof.
  unfold resolveResponse.
  destruct (Annotations a !! sshCommandTimeout) as [v1|];
    destruct (Annotations a !! localCommandTimeout) as [v2|];
    mstep;
    try destruct (time_ParseDuration env v1);
    try destruct (time_ParseDuration env v2);
    split; reflexivity.
Qed.

Lemma resolveResponse_logs env c lg a st :
  logs (snd (resolveResponse env c lg a st)) =
  logs st
  ++ parse_failure_lines env lg a sshCommandTimeout
       "Unable to parse SSH command timeout"
  ++ parse_failure_lines env lg a localCommandTimeout
       "Unable to parse local command timeout".
Proof.
  unfold resolveResponse, parse_failure_lines, parse_failure_line.
  destruct (Annotations a !! sshCommandTimeout) as [v1|];
    destruct (Annotations a !! localCommandTimeout) as [v2|];
    mstep;
    try destruct (time_ParseDuration env v1);
    try destruct (time_ParseDuration env v2);
    simpl; rewrite <- ?app_assoc, ?app_nil_r; reflexivity.
Qed.

(** [HandleAlert] is the resolver followed by the dispatch. *)
Lemma HandleAlert_steps env c lg a st :
  let alogger := alert_logger lg a in
  let st0 := snd (Log LDebug alogger [("msg", VStr "Handling alert")] st) in
  let r := fst (resolveResponse env c alogger a st0) in
  let st1 := snd (resolveResponse env c alogger a st0) in
  HandleAlert env c lg a st =
  (({| Fingerprint := Fingerprint a; Labels := Labels a;
       Annotations := Annotations a; logger := alogger; Response := r |},
    fst (dispatch env alogger r st1)),
   snd (dispatch env alogger r st1)).
Proof.
  cbv zeta. unfold HandleAlert, bind, ret, Log. simpl.
  destruct (resolveResponse _ _ _ _ _) as [r st1]. simpl.
  destruct (dispatch _ _ _ _); reflexivity.
Qed.

Lemma HandleAlert_Response env c lg a st :
  Response (fst (fst (HandleAlert env c lg a st))) =
  fst (resolveResponse env c (alert_logger lg a) a
         (snd (Log LDebug (alert_logger lg a)
                   [("msg", VStr "Handling alert")] st))).
Proof. rewrite HandleAlert_steps. reflexivity. Qed.

(** Every field but [SSHConnectionTimeout] comes from the configuration or
    from the field's annotation; the three fields without a configured
    default start from the empty string. *)
Lemma resolved_fields env c lg a st :
  let r := Response (fst (fst (HandleAlert env c lg a st))) in
  User r = override (config.User c) a userAnnotation
  ∧ SSHKey r = override (config.SSHKey c) a sshKeyAnnotation
  ∧ SSHPassword r = config.SSHPassword c
  ∧ SSHKnownHosts r = config.SSHKnownHosts c
  ∧ SSHHostKeyAlgorithms r = config.SSHHostKeyAlgorithms c
  ∧ SSHCommandTimeout r =
      override_duration env (config.SSHCommandTimeout c) a sshCommandTimeout
  ∧ SSHHost r = override "" a sshHostAnnotation
  ∧ SSHCommand r = override "" a sshCommandAnnotation
  ∧ LocalCommand r = override "" a localCommandAnnotation
  ∧ LocalCommandTimeout r =
      override_duration env (config.LocalCommandTimeout c) a
                        localCommandTimeout.
Proof.
  cbv zeta. rewrite HandleAlert_Response, resolveResponse_value. simpl.
  repeat split.
Qed.

(** ** The local executor *)

(** What one call of [runLocalCommand] does: one program launch, whose name
    is the whole command string; the counter of type [local] goes up by one
    when the deadline passed or the run failed, and nothing is counted
    otherwise. *)
Lemma runLocalCommand_spec env r lg st :
  let cmd := execCommand_Run env (LocalCommand r) [] (LocalCommandTimeout r) in
  let res := runLocalCommand env r lg st in
  trace (snd res) =
    trace st ++ [EvRunLocalCommand;
                 EvExec (LocalCommand r) [] (LocalCommandTimeout r)]
  ∧ (if ctx_deadline_exceeded cmd then
       fst res = Some ("Local command timed out: " +:+ LocalCommand r)
       ∧ CommandErrorsTotal (snd res) =
           <["local" := S (counter st "local")]> (CommandErrorsTotal st)
     else
       match run_error cmd with
       | Some err =>
           fst res = Some err
           ∧ CommandErrorsTotal (snd res) =
               <["local" := S (counter st "local")]> (CommandErrorsTotal st)
       | None =>
           fst res = None
           ∧ CommandErrorsTotal (snd res) = CommandErrorsTotal st
       end).
Proof.
  cbv zeta. unfold runLocalCommand. mstep.
  destruct (ctx_deadline_exceeded _); [|destruct (run_error _)];
    simpl; rewrite <- app_assoc; auto.
Qed.

(** ** The SSH executor *)

(** Every call of [runSSHCommand] is recorded at the head of what it adds to
    the trace. *)
Lemma runSSHCommand_trace env r lg st :
  ∃ t, trace (snd (runSSHCommand env r lg st)) =
       trace st ++ EvRunSSHCommand :: t.
Proof.
  unfold runSSHCommand, getPrivateKeyAuth, ssh_Dial, hostKeyCallback,
    knownhosts_New, knownhosts_check, ssh_InsecureIgnoreHostKey, ssh_worker.
  mstep. msplit; mstep; msplit;
    rewrite <- ?app_assoc; simpl; eexists; reflexivity.
Qed.

Lemma knownhosts_New_value env path st :
  fst (knownhosts_New env path st) =
  match knownhosts_file env path with
  | inl err => inl err
  | inr db => inr (knownhosts_check db)
  end.
Proof.
  unfold knownhosts_New, bind, emit, ret.
  by destruct (knownhosts_file env path).
Qed.

(** The verdict of the callback does not depend on the state. *)
Lemma hostKeyCallback_verdict env knownHosts lg hostname remote key st :
  fst (hostKeyCallback env knownHosts lg hostname remote key st) =
  if decide (knownHosts ≠ "") then
    match knownhosts_file env knownHosts with
    | inl err => Some err
    | inr db =>
        if decide (key ∈ db hostname) then None
        else Some "knownhosts: key is unknown"
    end
  else None.
Proof.
  unfold hostKeyCallback, knownhosts_New, knownhosts_check,
    ssh_InsecureIgnoreHostKey.
  mstep. case_decide; [|reflexivity]. simpl.
  destruct (knownhosts_file env knownHosts); simpl; [reflexivity|].
  case_decide; reflexivity.
Qed.

(** A successful call of the SSH executor counts nothing, and no call counts
    more than twice. *)
Lemma runSSHCommand_counter env r lg st :
  let res := runSSHCommand env r lg st in
  (fst res = None -> CommandErrorsTotal (snd res) = CommandErrorsTotal st)
  ∧ (counter (snd res) "ssh" ≤ S (S (counter st "ssh")))%nat
  ∧ (∀ type, type ≠ "ssh" -> counter (snd res) type = counter st type).
Proof.
  cbv zeta. ssh_unfold. mstep. msplit; mstep; msplit;
    (split; [try discriminate; try reflexivity|split];
     [counter_simpl; try lia
     |intros type Hne; counter_simpl; rewrite ?lookup_insert_ne by done;
      reflexivity]).
Qed.

(** When the timer wins the [select], the call returns the timeout error,
    counts once and closes the connection. *)
Lemma runSSHCommand_timeout env r lg st remote key :
  SSHKey r = "" ->
  SSHKnownHosts r = "" ->
  (∀ auth, dial_script env "tcp" (SSHHost r) (User r) auth
             (SSHHostKeyAlgorithms r) (SSHConnectionTimeout r) =
           DialHostKey remote key None) ->
  new_session_error
    (session_script env (SSHHost r) (SSHCommand r) (SSHCommandTimeout r)) = None ->
  session_run_error
    (session_script env (SSHHost r) (SSHCommand r) (SSHCommandTimeout r)) = None ->
  worker_before_timer
    (session_script env (SSHHost r) (SSHCommand r) (SSHCommandTimeout r)) = false ->
  let res := runSSHCommand env r lg st in
  fst res = Some ("Timeout executing SSH command: " +:+ SSHCommand r)
  ∧ counter (snd res) "ssh" = S (counter st "ssh")
  ∧ trace (snd res) =
      trace st ++ [EvRunSSHCommand; EvDial "tcp" (SSHHost r); EvNewSession;
                   EvSessionRun (SSHCommand r); EvClose].
Proof.
  intros Hkey Hkh Hdial Hsess Hrun Htimer. cbv zeta. ssh_unfold. mstep.
  rewrite Hkey, Hkh.
  rewrite !(decide_False (P := "" ≠ "")) by (intros H; by apply H).
  destruct (decide (SSHPassword r ≠ "")); simpl;
    rewrite Hdial; simpl;
    rewrite ?(decide_False (P := "" ≠ "")) by (intros H; by apply H); simpl;
    rewrite Hsess; simpl; rewrite Hrun; simpl; rewrite Htimer; simpl;
    (split; [reflexivity|split; [by counter_simpl|]]);
    rewrite <- !app_assoc; reflexivity.
Qed.

(** ** What every computation of the package preserves

    The log and the trace are only appended to, and no counter ever goes
    down. *)

Lemma extends_refl st : extends st st.
Proof.
  repeat split; try (exists []; by rewrite app_nil_r). intros; lia.
Qed.

Lemma extends_trans st1 st2 st3 :
  extends st1 st2 -> extends st2 st3 -> extends st1 st3.
Proof.
  intros ([l1 Hl1] & [t1 Ht1] & Hc1) ([l2 Hl2] & [t2 Ht2] & Hc2).
  repeat split.
  - exists (l1 ++ l2). by rewrite Hl2, Hl1, app_assoc.
  - exists (t1 ++ t2). by rewrite Ht2, Ht1, app_assoc.
  - intros type. specialize (Hc1 type). specialize (Hc2 type). lia.
Qed.

Lemma grows_ret {A : Type} (x : A) : grows (ret x).
Proof. intros st. apply extends_refl. Qed.

Lemma grows_bind {A B : Type} (c : M A) (k : A -> M B) :
  grows c -> (∀ x, grows (k x)) -> grows (bind c k).
Proof.
  intros Hc Hk st. unfold bind. specialize (Hc st).
  destruct (c st) as [x st1]. eapply extends_trans; [exact Hc|apply Hk].
Qed.

(** The same, when the continuation is only known to grow on the values
    that [c] can return. *)
Lemma grows_bind_on {A B : Type} (c : M A) (k : A -> M B) :
  grows c -> (∀ st, grows (k (fst (c st)))) -> grows (bind c k).
Proof.
  intros Hc Hk st. unfold bind. specialize (Hc st). specialize (Hk st).
  destruct (c st) as [x st1]. eapply extends_trans; [exact Hc|apply Hk].
Qed.

Lemma grows_Log l lg kvs : grows (Log l lg kvs).
Proof.
  intros st. repeat split; simpl.
  - eexists; reflexivity.
  - exists []; by rewrite app_nil_r.
  - intros; reflexivity.
Qed.

Lemma grows_emit ev : grows (emit ev).
Proof.
  intros st. repeat split; simpl.
  - exists []; by rewrite app_nil_r.
  - eexists; reflexivity.
  - intros; reflexivity.
Qed.

Lemma grows_Inc type : grows (Inc type).
Proof.
  intros st. split; [|split].
  - exists []; simpl; by rewrite app_nil_r.
  - exists []; simpl; by rewrite app_nil_r.
  - intros type'. destruct (decide (type = type')) as [->|Hne].
    + rewrite counter_Inc_eq. lia.
    + rewrite counter_Inc_ne by done. lia.
Qed.

Create HintDb grows.
#[local] Hint Resolve grows_ret grows_Log grows_emit grows_Inc : grows.

Ltac grows_tac :=
  repeat first
    [ progress eauto with grows
    | apply grows_bind; [|intros ?]
    | case_decide
    | case_match ].

Lemma grows_runLocalCommand env r lg : grows (runLocalCommand env r lg).
Proof. unfold runLocalCommand. grows_tac. Qed.

Lemma grows_getPrivateKeyAuth env path : grows (getPrivateKeyAuth env path).
Proof. unfold getPrivateKeyAuth. grows_tac. Qed.

Lemma grows_knownhosts_check db hostname remote key :
  grows (knownhosts_check db hostname remote key).
Proof. unfold knownhosts_check. grows_tac. Qed.

Lemma grows_hostKeyCallback env knownHosts lg hostname remote key :
  grows (hostKeyCallback env knownHosts lg hostname remote key).
Proof.
  unfold hostKeyCallback, ssh_InsecureIgnoreHostKey.
  case_decide; [|grows_tac].
  apply grows_bind; [eauto with grows|intros _].
  apply grows_bind_on.
  - unfold knownhosts_New. grows_tac.
  - intros st. rewrite knownhosts_New_value.
    destruct (knownhosts_file env knownHosts) as [err|db];
      [grows_tac|apply grows_knownhosts_check].
Qed.

Lemma grows_ssh_Dial env network addr cfg :
  (∀ hostname remote key, grows (cc_HostKeyCallback cfg hostname remote key)) ->
  grows (ssh_Dial env network addr cfg).
Proof. intros Hcb. unfold ssh_Dial. grows_tac. Qed.

Lemma grows_ssh_worker env r : grows (ssh_worker env r).
Proof. unfold ssh_worker. grows_tac. Qed.

#[local] Hint Resolve grows_runLocalCommand grows_getPrivateKeyAuth
  grows_hostKeyCallback grows_ssh_worker : grows.

Lemma grows_runSSHCommand env r lg : grows (runSSHCommand env r lg).
Proof.
  unfold runSSHCommand.
  apply grows_bind; [eauto with grows|intros _].
  apply grows_bind; [eauto with grows|intros _].
  apply grows_bind; [grows_tac|intros [err|auth]]; [grows_tac|].
  apply grows_bind; [apply grows_ssh_Dial; simpl; eauto with grows|].
  intros [err|connection]; [grows_tac|].
  apply grows_bind; [eauto with grows|intros [[se ce] received]].
  grows_tac.
Qed.

#[local] Hint Resolve grows_runSSHCommand : grows.

Lemma grows_local_path env lg r : grows (local_path env lg r).
Proof. unfold local_path. grows_tac. Qed.

Lemma grows_ssh_path env lg r : grows (ssh_path env lg r).
Proof. unfold ssh_path. grows_tac. Qed.

#[local] Hint Resolve grows_local_path grows_ssh_path : grows.

Lemma grows_dispatch env lg r : grows (dispatch env lg r).
Proof. unfold dispatch. grows_tac. Qed.

(** ** The dispatch *)

(** The local path returns what the local executor returned, and after the
    executor it only writes log lines. *)
Lemma local_path_spec env lg r st :
  let run := runLocalCommand env r (localLogger lg r) st in
  fst (local_path env lg r st) = fst run
  ∧ trace (snd (local_path env lg r st)) = trace (snd run)
  ∧ CommandErrorsTotal (snd (local_path env lg r st)) =
      CommandErrorsTotal (snd run).
Proof.
  cbv zeta. unfold local_path, bind.
  destruct (runLocalCommand env r (localLogger lg r) st) as [[e|] st1];
    simpl; auto.
Qed.

Lemma ssh_path_spec env lg r st :
  let run := runSSHCommand env r (sshLogger lg r) st in
  fst (ssh_path env lg r st) = fst run
  ∧ trace (snd (ssh_path env lg r st)) = trace (snd run)
  ∧ CommandErrorsTotal (snd (ssh_path env lg r st)) =
      CommandErrorsTotal (snd run).
Proof.
  cbv zeta. unfold ssh_path, bind.
  destruct (runSSHCommand env r (sshLogger lg r) st) as [[e|] st1];
    simpl; auto.
Qed.

(** The error that the dispatch returns: that of the SSH executor whenever
    the SSH path runs, that of the local executor only when it does not. *)
Lemma dispatch_result env lg r st :
  fst (dispatch env lg r st) =
  if decide (SSHCommand r ≠ "") then
    fst (runSSHCommand env r (sshLogger lg r) (after_local env lg r st))
  else if decide (LocalCommand r ≠ "") then
    fst (runLocalCommand env r (localLogger lg r) st)
  else None.
Proof.
  unfold dispatch, after_local, bind at 1 2.
  destruct (decide (LocalCommand r ≠ "")) as [Hl|Hl];
    destruct (decide (SSHCommand r ≠ "")) as [Hs|Hs]; simpl.
  - destruct (local_path env lg r st) as [e1 st1]; simpl.
    pose proof (ssh_path_spec env lg r st1) as (He & _). simpl in He.
    destruct (ssh_path env lg r st1) as [e2 st2]; simpl in *. exact He.
  - pose proof (local_path_spec env lg r st) as (He & _). simpl in He.
    destruct (local_path env lg r st) as [e1 st1]; simpl in *. exact He.
  - pose proof (ssh_path_spec env lg r st) as (He & _). simpl in He.
    destruct (ssh_path env lg r st) as [e2 st2]; simpl in *. exact He.
  - reflexivity.
Qed.

(** With both commands empty the dispatch does nothing at all. *)
Lemma dispatch_no_commands env lg r st :
  LocalCommand r = "" -> SSHCommand r = "" ->
  dispatch env lg r st = (None, st).
Proof.
  intros Hl Hs. unfold dispatch, bind, ret.
  rewrite !decide_False by (intros H; apply H; assumption).
  reflexivity.
Qed.

(** A dispatch with only a local command is one call of the local
    executor. *)
Lemma dispatch_local_only env lg r st :
  LocalCommand r ≠ "" ->
  SSHCommand r = "" ->
  let run := runLocalCommand env r (localLogger lg r) st in
  fst (dispatch env lg r st) = fst run
  ∧ trace (snd (dispatch env lg r st)) = trace (snd run)
  ∧ CommandErrorsTotal (snd (dispatch env lg r st)) =
      CommandErrorsTotal (snd run).
Proof.
  intros Hl Hs. cbv zeta.
  pose proof (local_path_spec env lg r st) as Hspec. cbv zeta in Hspec.
  unfold dispatch, bind, ret.
  rewrite decide_True by assumption.
  destruct (local_path env lg r st) as [e st1].
  rewrite decide_False by (intros H; by apply H).
  exact Hspec.
Qed.

(** The executor invocations of one dispatch, as the trace shows them: the
    local executor once when [LocalCommand] is non-empty, then the SSH
    executor once when [SSHCommand] is non-empty. *)
Lemma dispatch_trace env lg r st :
  ∃ t, trace (snd (dispatch env lg r st)) =
       trace st
       ++ (if decide (LocalCommand r ≠ "") then
             [EvRunLocalCommand;
              EvExec (LocalCommand r) [] (LocalCommandTimeout r)]
           else [])
       ++ (if decide (SSHCommand r ≠ "") then EvRunSSHCommand :: t else []).
Proof.
  unfold dispatch, bind at 1 2.
  destruct (decide (LocalCommand r ≠ "")) as [Hl|Hl];
    destruct (decide (SSHCommand r ≠ "")) as [Hs|Hs]; simpl.
  - pose proof (local_path_spec env lg r st) as (_ & Ht1 & _).
    pose proof (runLocalCommand_spec env r (localLogger lg r) st) as (Ht & _).
    simpl in Ht1, Ht. rewrite Ht in Ht1. clear Ht.
    destruct (local_path env lg r st) as [e1 st1]; simpl in *.
    pose proof (ssh_path_spec env lg r st1) as (_ & Ht2 & _).
    destruct (runSSHCommand_trace env r (sshLogger lg r) st1) as [t Ht].
    simpl in Ht2. rewrite Ht in Ht2.
    destruct (ssh_path env lg r st1) as [e2 st2]; simpl in *.
    exists t. rewrite Ht2, Ht1, <- app_assoc. reflexivity.
  - pose proof (local_path_spec env lg r st) as (_ & Ht1 & _).
    pose proof (runLocalCommand_spec env r (localLogger lg r) st) as (Ht & _).
    simpl in Ht1, Ht. rewrite Ht in Ht1. clear Ht.
    destruct (local_path env lg r st) as [e1 st1]; simpl in *.
    exists []. exact Ht1.
  - pose proof (ssh_path_spec env lg r st) as (_ & Ht2 & _).
    destruct (runSSHCommand_trace env r (sshLogger lg r) st) as [t Ht].
    simpl in Ht2. rewrite Ht in Ht2.
    destruct (ssh_path env lg r st) as [e2 st2]; simpl in *.
    exists t. exact Ht2.
  - exists []. by rewrite app_nil_r.
Qed.

(** * The claims *)

(** ** The resolver *)

(** C1 (the code departs from the claim).  The claim: every field of the
    resolved response, the ssh connection timeout included, is the value of
    the configuration or the value of the field's annotation.  The code:
    [SSHConnectionTimeout] is not named in the composite literal and no
    annotation sets it, so it is 0 for every configuration and every alert;
    with a configured connection timeout of 10s and an alert without
    annotations the resolved value is 0, not 10s. *)
Theorem C1_ssh_connection_timeout_is_never_the_default :
  (∀ env c lg a st,
     SSHConnectionTimeout (Response (fst (fst (HandleAlert env c lg a st)))) = 0)
  ∧ config.SSHConnectionTimeout Sample.cfg = 10 * Second
  ∧ SSHConnectionTimeout
      (Response (fst (fst (HandleAlert Sample.env Sample.cfg []
                             (Sample.alert []) Sample.st0))))
    ≠ config.SSHConnectionTimeout Sample.cfg.
Proof.
  assert (Hzero : ∀ env c lg a st,
    SSHConnectionTimeout (Response (fst (fst (HandleAlert env c lg a st)))) = 0).
  { intros. rewrite HandleAlert_Response, resolveResponse_value. reflexivity. }
  split; [exact Hzero|]. split; [reflexivity|].
  rewrite Hzero. discriminate.
Qed.

(** C10: in the resolved response [SSHHost], [SSHCommand] and [LocalCommand]
    are the empty string whenever their annotation is absent, whatever the
    configuration; and an alert without the two command annotations leads
    to no action: no executor call, no counter change, no error. *)
Theorem C10_commands_empty_without_annotation env c lg a st :
  let res := HandleAlert env c lg a st in
  let r := Response (fst (fst res)) in
  (Annotations a !! sshHostAnnotation = None -> SSHHost r = "")
  ∧ (Annotations a !! sshCommandAnnotation = None -> SSHCommand r = "")
  ∧ (Annotations a !! localCommandAnnotation = None -> LocalCommand r = "")
  ∧ (Annotations a !! sshCommandAnnotation = None ->
     Annotations a !! localCommandAnnotation = None ->
     snd (fst res) = None
     ∧ trace (snd res) = trace st
     ∧ CommandErrorsTotal (snd res) = CommandErrorsTotal st).
Proof.
  cbv zeta.
  pose proof (resolved_fields env c lg a st) as
    (_ & _ & _ & _ & _ & _ & Hh & Hs & Hl & _).
  cbv zeta in *. unfold override in *.
  split; [intros H; by rewrite Hh, H|].
  split; [intros H; by rewrite Hs, H|].
  split; [intros H; by rewrite Hl, H|].
  intros H1 H2. rewrite H1 in Hs. rewrite H2 in Hl. simpl in Hs, Hl.
  rewrite HandleAlert_steps in *. simpl in *.
  rewrite dispatch_no_commands by assumption. simpl.
  destruct (resolveResponse_state env c (alert_logger lg a) a
    (snd (Log LDebug (alert_logger lg a) [("msg", VStr "Handling alert")] st)))
    as [Hc Ht].
  auto.
Qed.

Lemma C10_commands_empty_without_annotation_witness :
  let res := HandleAlert Sample.env Sample.cfg [] (Sample.alert []) Sample.st0 in
  let r := Response (fst (fst res)) in
  SSHHost r = "" ∧ SSHCommand r = "" ∧ LocalCommand r = ""
  ∧ snd (fst res) = None
  ∧ trace (snd res) = trace Sample.st0
  ∧ CommandErrorsTotal (snd res) = CommandErrorsTotal Sample.st0.
Proof.
  destruct (C10_commands_empty_without_annotation Sample.env Sample.cfg []
              (Sample.alert []) Sample.st0) as (Hh & Hs & Hl & Hnone).
  split; [apply Hh; reflexivity|].
  split; [apply Hs; reflexivity|].
  split; [apply Hl; reflexivity|].
  apply Hnone; reflexivity.
Defined.

(** C8: when the annotation of a timeout field is present and does not
    parse as a duration, the field of the resolved response is the
    configured default, the resolver logs the failure at error level with
    the parser's error and the annotation's value, and the dispatch runs as
    for any other alert: the local executor is called when [LocalCommand]
    is non-empty and the SSH executor when [SSHCommand] is non-empty, both
    commands being the ones the annotations give. *)
Theorem C8_malformed_timeout_keeps_default env c lg a st f val err :
  Annotations a !! timeout_key f = Some val ->
  time_ParseDuration env val = inl err ->
  let res := HandleAlert env c lg a st in
  let r := Response (fst (fst res)) in
  timeout_value f r = timeout_default f c
  ∧ (∃ l, logs (snd res) = logs st ++ l
          ∧ parse_failure_line (alert_logger lg a) (timeout_message f) err val ∈ l)
  ∧ LocalCommand r = override "" a localCommandAnnotation
  ∧ SSHCommand r = override "" a sshCommandAnnotation
  ∧ (∃ t, trace (snd res) =
          trace st
          ++ (if decide (LocalCommand r ≠ "") then
                [EvRunLocalCommand;
                 EvExec (LocalCommand r) [] (LocalCommandTimeout r)]
              else [])
          ++ (if decide (SSHCommand r ≠ "") then EvRunSSHCommand :: t else [])).
Proof.
  intros Hann Hparse. cbv zeta.
  pose proof (resolved_fields env c lg a st) as
    (_ & _ & _ & _ & _ & Hst & _ & Hs & Hl & Hlt).
  cbv zeta in *.
  split; [|split; [|split; [exact Hl|split; [exact Hs|]]]].
  - destruct f; simpl in *.
    + rewrite Hst. unfold override_duration. by rewrite Hann, Hparse.
    + rewrite Hlt. unfold override_duration. by rewrite Hann, Hparse.
  - rewrite HandleAlert_steps. cbn [fst snd].
    set (alogger := alert_logger lg a).
    set (st0 := snd (Log LDebug alogger [("msg", VStr "Handling alert")] st)).
    set (r := fst (resolveResponse env c alogger a st0)).
    set (st1 := snd (resolveResponse env c alogger a st0)).
    destruct (grows_dispatch env alogger r st1) as ([l2 Hl2] & _).
    pose proof (resolveResponse_logs env c alogger a st0) as Hl1.
    fold st1 in Hl1. rewrite Hl2, Hl1. subst st0. simpl logs.
    rewrite <- !app_assoc. eexists; split; [reflexivity|].
    apply elem_of_app; right.
    destruct f; simpl in Hann |- *.
    + apply elem_of_app; left.
      unfold parse_failure_lines. rewrite Hann, Hparse.
      apply list_elem_of_singleton. reflexivity.
    + apply elem_of_app; right. apply elem_of_app; left.
      unfold parse_failure_lines. rewrite Hann, Hparse.
      apply list_elem_of_singleton. reflexivity.
  - rewrite HandleAlert_steps. cbn [fst snd Response].
    set (alogger := alert_logger lg a).
    set (st0 := snd (Log LDebug alogger [("msg", VStr "Handling alert")] st)).
    set (r := fst (resolveResponse env c alogger a st0)).
    set (st1 := snd (resolveResponse env c alogger a st0)).
    destruct (dispatch_trace env alogger r st1) as [t Ht].
    exists t. rewrite Ht. subst st1.
    destruct (resolveResponse_state env c alogger a st0) as [_ ->].
    reflexivity.
Qed.

Lemma C8_malformed_timeout_keeps_default_witness :
  let res := HandleAlert Sample.env Sample.cfg [] Sample.malformed_alert
                         Sample.st0 in
  let r := Response (fst (fst res)) in
  timeout_value SSHTimeout r = timeout_default SSHTimeout Sample.cfg
  ∧ (∃ l, logs (snd res) = logs Sample.st0 ++ l
          ∧ parse_failure_line (alert_logger [] Sample.malformed_alert)
              (timeout_message SSHTimeout) "time: invalid duration soon"
              "soon" ∈ l)
  ∧ LocalCommand r = override "" Sample.malformed_alert localCommandAnnotation
  ∧ SSHCommand r = override "" Sample.malformed_alert sshCommandAnnotation
  ∧ (∃ t, trace (snd res) =
          trace Sample.st0
          ++ (if decide (LocalCommand r ≠ "") then
                [EvRunLocalCommand;
                 EvExec (LocalCommand r) [] (LocalCommandTimeout r)]
              else [])
          ++ (if decide (SSHCommand r ≠ "") then EvRunSSHCommand :: t else [])).
Proof.
  apply (C8_malformed_timeout_keeps_default Sample.env Sample.cfg []
           Sample.malformed_alert Sample.st0 SSHTimeout "soon"
           "time: invalid duration soon"); reflexivity.
Defined.

(** ** The SSH executor and the host-key policy *)

(** C2 (the code departs from the claim).  The claim: when [SSHKey] is set
    and the key cannot be read or parsed, the SSH executor returns the
    failure at once, dials nothing and increments the error counter of type
    [ssh].  The code: it returns the error at once and dials nothing (the
    trace holds the file read and nothing after it), and it leaves the
    counter as it was: this return is the only failing one of
    [runSSHCommand] without an increment. *)
Theorem C2_key_failure_is_not_counted env r lg st err :
  SSHKey r ≠ "" ->
  key_unusable env (SSHKey r) err ->
  let res := runSSHCommand env r lg st in
  fst res = Some err
  ∧ trace (snd res) = trace st ++ [EvRunSSHCommand; EvReadFile (SSHKey r)]
  ∧ CommandErrorsTotal (snd res) = CommandErrorsTotal st.
Proof.
  intros Hkey Hbad. cbv zeta. ssh_unfold. mstep.
  rewrite decide_True by assumption. simpl.
  destruct Hbad as [Hread|(buffer & Hread & Hparse)]; rewrite Hread; simpl.
  - rewrite <- app_assoc. auto.
  - rewrite Hparse. simpl. rewrite <- app_assoc. auto.
Qed.

Lemma C2_key_failure_is_not_counted_witness :
  let res := runSSHCommand Sample.env Sample.missing_key_response []
                           Sample.st0 in
  fst res = Some "open /etc/responder/id_rsa: no such file or directory"
  ∧ trace (snd res) =
      trace Sample.st0
      ++ [EvRunSSHCommand; EvReadFile (SSHKey Sample.missing_key_response)]
  ∧ CommandErrorsTotal (snd res) = CommandErrorsTotal Sample.st0.
Proof.
  apply (C2_key_failure_is_not_counted Sample.env Sample.missing_key_response
           [] Sample.st0);
    [discriminate|left; reflexivity].
Defined.

(** C3 (the code departs from the claim).  The claim: every failed or
    timed-out attempt increments the error counter exactly once, also when
    the known-hosts verifier cannot be constructed during the connection
    setup.  The code: when the server presents its key and [knownhosts.New]
    fails, the host-key callback increments the counter and returns the
    error; the error fails [ssh.Dial], and the dial-failure branch of
    [runSSHCommand] increments the counter again.  One attempt, two
    increments. *)
Theorem C3_known_hosts_failure_is_counted_twice
    env r lg st remote key rest err :
  key_usable env (SSHKey r) ->
  SSHKnownHosts r ≠ "" ->
  knownhosts_file env (SSHKnownHosts r) = inl err ->
  (∀ auth, dial_script env "tcp" (SSHHost r) (User r) auth
             (SSHHostKeyAlgorithms r) (SSHConnectionTimeout r) =
           DialHostKey remote key rest) ->
  let res := runSSHCommand env r lg st in
  fst res = Some ("ssh: handshake failed: " +:+ err)
  ∧ counter (snd res) "ssh" = S (S (counter st "ssh"))
  ∧ (∀ type, type ≠ "ssh" -> counter (snd res) type = counter st type).
Proof.
  intros Hkey Hkh Hnew Hdial.
  destruct (runSSHCommand_counter env r lg st) as (_ & _ & Hother).
  cbv zeta in *. split; [|split; [|exact Hother]]; clear Hother;
    ssh_unfold; mstep.
  - destruct (decide (SSHKey r ≠ "")) as [Hk|Hk];
      [destruct Hkey as [?|(buffer & k & -> & Hparse)]; [done|]; simpl;
       rewrite Hparse; simpl
      |destruct (decide (SSHPassword r ≠ "")); simpl];
      rewrite Hdial; simpl; rewrite decide_True by assumption; simpl;
      rewrite Hnew; reflexivity.
  - destruct (decide (SSHKey r ≠ "")) as [Hk|Hk];
      [destruct Hkey as [?|(buffer & k & -> & Hparse)]; [done|]; simpl;
       rewrite Hparse; simpl
      |destruct (decide (SSHPassword r ≠ "")); simpl];
      rewrite Hdial; simpl; rewrite decide_True by assumption; simpl;
      rewrite Hnew; simpl; by counter_simpl.
Qed.

Lemma C3_known_hosts_failure_is_counted_twice_witness :
  let res := runSSHCommand Sample.env Sample.broken_known_hosts_response []
                           Sample.st0 in
  fst res =
    Some ("ssh: handshake failed: " +:+
          "knownhosts: /etc/responder/known_hosts.broken:1: illegal base64 data")
  ∧ counter (snd res) "ssh" = S (S (counter Sample.st0 "ssh"))
  ∧ (∀ type, type ≠ "ssh" -> counter (snd res) type = counter Sample.st0 type).
Proof.
  apply (C3_known_hosts_failure_is_counted_twice Sample.env
           Sample.broken_known_hosts_response [] Sample.st0
           "192.0.2.10:22" "ssh-ed25519 AAAA-db1" None);
    [left; reflexivity|discriminate|reflexivity|intros; reflexivity].
Defined.

(** C6: the host-key callback accepts every key when the known-hosts path is
    empty; when the path is non-empty it accepts a key if and only if the
    known-hosts file lists the key for the hostname; and a key that the
    callback rejects fails the dial. *)
Theorem C6_host_key_policy env knownHosts lg hostname remote key st :
  let verdict :=
    fst (hostKeyCallback env knownHosts lg hostname remote key st) in
  (knownHosts = "" -> verdict = None)
  ∧ (knownHosts ≠ "" ->
     (verdict = None ↔ known_hosts_entry env knownHosts hostname key))
  ∧ (∀ network cfg rest st',
       cc_HostKeyCallback cfg = hostKeyCallback env knownHosts lg ->
       dial_script env network hostname (cc_User cfg) (cc_Auth cfg)
                   (cc_HostKeyAlgorithms cfg) (cc_Timeout cfg) =
         DialHostKey remote key rest ->
       verdict ≠ None ->
       ∃ err, fst (ssh_Dial env network hostname cfg st') = inl err).
Proof.
  cbv zeta. rewrite hostKeyCallback_verdict. split; [|split].
  - intros ->. reflexivity.
  - intros Hne. rewrite decide_True by assumption. unfold known_hosts_entry.
    destruct (knownhosts_file env knownHosts) as [err|db].
    + split; [discriminate|]. intros (db & Hdb & _). discriminate.
    + case_decide.
      * split; [|reflexivity]. intros _. exists db. auto.
      * split; [discriminate|]. intros (db' & Hdb & Hin).
        injection Hdb as <-. contradiction.
  - intros network cfg rest st' Hcb Hdial Hrej.
    unfold ssh_Dial. unfold bind at 1. simpl. rewrite Hdial.
    unfold bind. rewrite Hcb.
    pose proof (hostKeyCallback_verdict env knownHosts lg hostname remote key
                  (snd (emit (EvDial network hostname) st'))) as Hv.
    simpl in Hv.
    destruct (hostKeyCallback env knownHosts lg hostname remote key _)
      as [[e|] st2]; simpl in *.
    + eexists; reflexivity.
    + rewrite <- Hv in Hrej. contradiction.
Qed.

(** The policy on the sample host: with no known-hosts path any key passes;
    with the sample file the listed key passes and another one does not. *)
Lemma C6_host_key_policy_witness :
  fst (hostKeyCallback Sample.env "" [] "db1.example.org:22" "192.0.2.10:22"
         "ssh-ed25519 AAAA-intruder" Sample.st0) = None
  ∧ fst (hostKeyCallback Sample.env "/etc/responder/known_hosts" []
           "db1.example.org:22" "192.0.2.10:22" "ssh-ed25519 AAAA-db1"
           Sample.st0) = None
  ∧ fst (hostKeyCallback Sample.env "/etc/responder/known_hosts" []
           "db1.example.org:22" "192.0.2.10:22" "ssh-ed25519 AAAA-intruder"
           Sample.st0) ≠ None.
Proof.
  split; [|split].
  - destruct (C6_host_key_policy Sample.env "" [] "db1.example.org:22"
                "192.0.2.10:22" "ssh-ed25519 AAAA-intruder" Sample.st0)
      as (Hempty & _ & _).
    apply Hempty. reflexivity.
  - destruct (C6_host_key_policy Sample.env "/etc/responder/known_hosts" []
                "db1.example.org:22" "192.0.2.10:22" "ssh-ed25519 AAAA-db1"
                Sample.st0) as (_ & Hfile & _).
    apply Hfile; [discriminate|].
    eexists. split; [reflexivity|]. apply list_elem_of_singleton. reflexivity.
  - destruct (C6_host_key_policy Sample.env "/etc/responder/known_hosts" []
                "db1.example.org:22" "192.0.2.10:22"
                "ssh-ed25519 AAAA-intruder" Sample.st0) as (_ & Hfile & _).
    intros Hacc. apply Hfile in Hacc; [|discriminate].
    destruct Hacc as (db & Hdb & Hin).
    injection Hdb as <-. simpl in Hin.
    apply list_elem_of_singleton in Hin. discriminate.
Defined.

(** ** The dispatch and the end-to-end scenario *)

(** C9: with [LocalCommand] and [SSHCommand] both empty the dispatch calls
    no executor (the trace is unchanged), leaves every counter as it was and
    returns the nil error. *)
Theorem C9_no_commands_no_action env lg r st :
  LocalCommand r = "" -> SSHCommand r = "" ->
  fst (dispatch env lg r st) = None
  ∧ trace (snd (dispatch env lg r st)) = trace st
  ∧ CommandErrorsTotal (snd (dispatch env lg r st)) = CommandErrorsTotal st
  ∧ snd (dispatch env lg r st) = st.
Proof.
  intros Hl Hs. rewrite dispatch_no_commands by assumption. auto.
Qed.

Lemma C9_no_commands_no_action_witness :
  fst (dispatch Sample.env [] AlertResponse_zero Sample.st0) = None
  ∧ trace (snd (dispatch Sample.env [] AlertResponse_zero Sample.st0)) =
      trace Sample.st0
  ∧ CommandErrorsTotal (snd (dispatch Sample.env [] AlertResponse_zero Sample.st0)) =
      CommandErrorsTotal Sample.st0
  ∧ snd (dispatch Sample.env [] AlertResponse_zero Sample.st0) = Sample.st0.
Proof.
  apply (C9_no_commands_no_action Sample.env [] AlertResponse_zero Sample.st0);
    reflexivity.
Defined.

(** C4 (the code departs from the claim).  The claim: with both commands
    non-empty both paths are attempted, and the dispatch returns the last
    error met if any error occurred.  The code: both paths are attempted,
    the local one first; but [err] is assigned again by the SSH path, so
    when the local executor fails and the SSH executor succeeds the dispatch
    returns the nil error and the local failure is lost. *)
Theorem C4_local_error_is_overwritten env lg r st e1 :
  LocalCommand r ≠ "" ->
  SSHCommand r ≠ "" ->
  fst (runLocalCommand env r (localLogger lg r) st) = Some e1 ->
  fst (runSSHCommand env r (sshLogger lg r) (snd (local_path env lg r st))) =
    None ->
  fst (dispatch env lg r st) = None
  ∧ ∃ t, trace (snd (dispatch env lg r st)) =
         trace st
         ++ [EvRunLocalCommand;
             EvExec (LocalCommand r) [] (LocalCommandTimeout r)]
         ++ EvRunSSHCommand :: t.
Proof.
  intros Hl Hs Hlocal Hssh. split.
  - rewrite dispatch_result. unfold after_local.
    rewrite !decide_True by assumption. exact Hssh.
  - destruct (dispatch_trace env lg r st) as [t Ht].
    rewrite !decide_True in Ht by assumption. eauto.
Qed.

Lemma C4_local_error_is_overwritten_witness :
  fst (dispatch Sample.env [] Sample.both_response Sample.st0) = None
  ∧ ∃ t, trace (snd (dispatch Sample.env [] Sample.both_response Sample.st0)) =
         trace Sample.st0
         ++ [EvRunLocalCommand;
             EvExec (LocalCommand Sample.both_response) []
                    (LocalCommandTimeout Sample.both_response)]
         ++ EvRunSSHCommand :: t.
Proof.
  apply (C4_local_error_is_overwritten Sample.env [] Sample.both_response
           Sample.st0 "exit status 1");
    [discriminate|discriminate|reflexivity|reflexivity].
Defined.

(** C5, as the spec states it, fails on the sample host.  The host has a
    shell that prints [hi] for [echo hi], but the local executor does not go
    through a shell: it launches a program whose name is the whole string
    [echo hi], there is none, and the dispatch returns the launch error and
    counts it. *)
Lemma C5_echo_hi_is_not_run_by_a_shell :
  let res := HandleAlert Sample.env Sample.cfg [] Sample.echo_alert
                         Sample.st0 in
  exec_stdout (execCommand_Run Sample.env "sh" ["-c"; "echo hi"]
                 (30 * Second)) = "hi" +:+ Sample.nl
  ∧ trace (snd res) = [EvRunLocalCommand; EvExec "echo hi" [] (30 * Second)]
  ∧ ¬ (snd (fst res) = None
       ∧ counter (snd res) "local" = counter Sample.st0 "local").
Proof.
  cbv zeta. split; [reflexivity|]. split; [reflexivity|].
  intros [Hres _]. vm_compute in Hres. discriminate.
Qed.

(** C5, amended: the local executor launches the command string itself as
    the program, with no arguments and no shell.  For an alert whose local
    command annotation is [echo hi], without SSH command and local timeout
    annotations, and a default local timeout of 30s, the dispatch calls only
    the local executor, which launches the program named [echo hi] once
    under a 30s deadline; the dispatch returns no error exactly when that
    launch ends without error before the deadline, and then the counter is
    unchanged; otherwise the counter of type [local] goes up by one. *)
Theorem C5_local_command_is_the_program_name env c lg a st :
  Annotations a !! localCommandAnnotation = Some "echo hi" ->
  Annotations a !! sshCommandAnnotation = None ->
  Annotations a !! localCommandTimeout = None ->
  config.LocalCommandTimeout c = 30 * Second ->
  let res := HandleAlert env c lg a st in
  let cmd := execCommand_Run env "echo hi" [] (30 * Second) in
  trace (snd res) =
    trace st ++ [EvRunLocalCommand; EvExec "echo hi" [] (30 * Second)]
  ∧ (snd (fst res) = None ↔
     ctx_deadline_exceeded cmd = false ∧ run_error cmd = None)
  ∧ (snd (fst res) = None ->
     CommandErrorsTotal (snd res) = CommandErrorsTotal st)
  ∧ (snd (fst res) ≠ None ->
     CommandErrorsTotal (snd res) =
       <["local" := S (counter st "local")]> (CommandErrorsTotal st)).
Proof.
  intros Hcmd Hssh Hto Hdef. cbv zeta.
  rewrite HandleAlert_steps. cbn [fst snd].
  set (alogger := alert_logger lg a).
  set (st0 := snd (Log LDebug alogger [("msg", VStr "Handling alert")] st)).
  destruct (resolveResponse_state env c alogger a st0) as [Hc1 Ht1].
  pose proof (resolveResponse_value env c alogger a st0) as Hr.
  unfold override, override_duration in Hr.
  rewrite Hcmd, Hssh, Hto, Hdef in Hr. simpl in Hr.
  set (r := fst (resolveResponse env c alogger a st0)) in *.
  set (st1 := snd (resolveResponse env c alogger a st0)) in *.
  assert (Hl : LocalCommand r = "echo hi") by (by rewrite Hr).
  assert (Hs : SSHCommand r = "") by (by rewrite Hr).
  assert (Hlt : LocalCommandTimeout r = 30 * Second) by (by rewrite Hr).
  destruct (dispatch_local_only env alogger r st1) as (He & Ht & Hc);
    [by rewrite Hl|exact Hs|].
  pose proof (runLocalCommand_spec env r (localLogger alogger r) st1)
    as (Ht' & Hcase).
  cbv zeta in Hcase. rewrite Hl, Hlt in Ht', Hcase.
  rewrite He, Ht, Hc, Ht', Ht1. subst st0. simpl trace.
  assert (Hcnt : counter st1 "local" = counter st "local").
  { unfold counter. by rewrite Hc1. }
  rewrite Hc1, Hcnt in Hcase. simpl in Hcase.
  split; [reflexivity|].
  destruct (ctx_deadline_exceeded _); [|destruct (run_error _)];
    destruct Hcase as [-> ->]; repeat split; try done.
  - intros [? _]; discriminate.
  - intros [_ ?]; discriminate.
Qed.

Lemma C5_local_command_is_the_program_name_witness :
  let res := HandleAlert Sample.env Sample.cfg [] Sample.echo_alert
                         Sample.st0 in
  let cmd := execCommand_Run Sample.env "echo hi" [] (30 * Second) in
  trace (snd res) =
    trace Sample.st0 ++ [EvRunLocalCommand; EvExec "echo hi" [] (30 * Second)]
  ∧ (snd (fst res) = None ↔
     ctx_deadline_exceeded cmd = false ∧ run_error cmd = None)
  ∧ (snd (fst res) = None ->
     CommandErrorsTotal (snd res) = CommandErrorsTotal Sample.st0)
  ∧ (snd (fst res) ≠ None ->
     CommandErrorsTotal (snd res) =
       <["local" := S (counter Sample.st0 "local")]>
         (CommandErrorsTotal Sample.st0)).
Proof.
  apply (C5_local_command_is_the_program_name Sample.env Sample.cfg []
           Sample.echo_alert Sample.st0); reflexivity.
Defined.

(** * The code run on the sample host *)

(** A local command that outlives its deadline: timeout error, one count. *)
Example local_timeout_counts_once :
  let res := runLocalCommand Sample.env
               (set_LocalCommand "yes" Sample.ssh_response) [] Sample.st0 in
  fst res = Some "Local command timed out: yes"
  ∧ counter (snd res) "local" = 1%nat.
Proof. vm_compute. split; reflexivity. Qed.

(** A local command that exits cleanly: no error, nothing counted. *)
Example local_success_counts_nothing :
  let res := runLocalCommand Sample.env
               (set_LocalCommand "true" Sample.ssh_response) [] Sample.st0 in
  fst res = None ∧ CommandErrorsTotal (snd res) = ∅.
Proof. vm_compute. split; reflexivity. Qed.

(** An SSH command on the reachable host, any host key accepted. *)
Example ssh_success :
  let res := runSSHCommand Sample.env Sample.ssh_response [] Sample.st0 in
  fst res = None
  ∧ CommandErrorsTotal (snd res) = ∅
  ∧ trace (snd res) =
      [EvRunSSHCommand; EvDial "tcp" "db1.example.org:22"; EvNewSession;
       EvSessionRun "uptime"; EvClose].
Proof. vm_compute. repeat split; reflexivity. Qed.

(** The same with the known-hosts file that lists the server's key. *)
Example ssh_success_known_host :
  fst (runSSHCommand Sample.env
         (Sample.set_SSHKnownHosts "/etc/responder/known_hosts"
            Sample.ssh_response) [] Sample.st0) = None.
Proof. vm_compute. reflexivity. Qed.

(** An SSH command that outlives its timeout. *)
Example ssh_timeout_counts_once :
  let res := runSSHCommand Sample.env
               (set_SSHCommand "sleep 3600" Sample.ssh_response) []
               Sample.st0 in
  fst res = Some "Timeout executing SSH command: sleep 3600"
  ∧ counter (snd res) "ssh" = 1%nat.
Proof. vm_compute. split; reflexivity. Qed.

(** The scenario of an unreachable host with a 1s command timeout: the dial
    fails and is counted once. *)
Example unreachable_host_counts_once :
  let res := HandleAlert Sample.env Sample.cfg []
               (Sample.alert [(sshCommandAnnotation, "uptime");
                              (sshHostAnnotation, "gone.example.org:22");
                              (sshCommandTimeout, "1s")])
               Sample.st0 in
  snd (fst res) = Some "dial tcp: lookup gone.example.org:22: no such host"
  ∧ SSHCommandTimeout (Response (fst (fst res))) = Second
  ∧ counter (snd res) "ssh" = 1%nat.
Proof. vm_compute. repeat split; reflexivity. Qed.

(** * Further properties of the code *)

(** ** The order of the outside actions *)

(** One pass over the paths of [runSSHCommand]: what it adds to the trace
    goes strictly up in rank, acts on the fields of the response only, reads
    a key file exactly when [SSHKey] is set, and closes exactly when a
    session was asked for. *)
Lemma runSSHCommand_events env r lg st :
  ∃ t, trace (snd (runSSHCommand env r lg st)) = trace st ++ EvRunSSHCommand :: t
       ∧ increasing (2%nat :: map rank t) = true
       ∧ Forall (ssh_event_of r) t
       ∧ occurs 3 t = bool_decide (SSHKey r ≠ "")
       ∧ occurs 8 t = occurs 6 t
       ∧ (occurs 7 t = true -> occurs 6 t = true)
       ∧ (occurs 6 t = true -> occurs 4 t = true)
       ∧ (occurs 5 t = true -> occurs 4 t = true ∧ SSHKnownHosts r ≠ "").
Proof.
  ssh_unfold. mstep. msplit; mstep; msplit;
    rewrite <- ?app_assoc; simpl;
    (eexists; split; [reflexivity|]);
    (split; [reflexivity|]);
    (split; [repeat constructor|]);
    (split; [simpl; try rewrite bool_decide_true by assumption;
             try rewrite bool_decide_false by assumption; reflexivity|]);
    (split; [reflexivity|]);
    (split; [simpl; auto|]);
    (split; [simpl; auto|]);
    simpl; intros; first [discriminate | split; [reflexivity|assumption]].
Qed.

Lemma ssh_events_are_events r t :
  Forall (ssh_event_of r) t -> Forall (event_of r) t.
Proof.
  intros Hall. eapply Forall_impl; [exact Hall|].
  intros [] Hev; simpl in *; tauto.
Qed.

Lemma ssh_events_rank r t n :
  Forall (ssh_event_of r) t -> (n < 2)%nat -> occurs n t = false.
Proof.
  intros Hall Hn. unfold occurs. apply not_true_iff_false. intros Hex.
  apply existsb_exists in Hex as (ev & Hin & Hrank).
  apply list_elem_of_In in Hin.
  rewrite Forall_forall in Hall. specialize (Hall ev Hin).
  destruct ev; simpl in Hall; try contradiction;
    cbn [rank] in Hrank; apply Nat.eqb_eq in Hrank; lia.
Qed.

(** The same for one dispatch: the local executor first, then the SSH
    executor, each exactly when its command is non-empty. *)
Lemma dispatch_events env lg r st :
  ∃ t, trace (snd (dispatch env lg r st)) = trace st ++ t
       ∧ increasing (map rank t) = true
       ∧ Forall (event_of r) t
       ∧ runs_local t = bool_decide (LocalCommand r ≠ "")
       ∧ launches t = bool_decide (LocalCommand r ≠ "")
       ∧ runs_ssh t = bool_decide (SSHCommand r ≠ "")
       ∧ (reads_key t = true -> SSHCommand r ≠ "" ∧ SSHKey r ≠ "")
       ∧ closes t = opens_session t.
Proof.
  unfold runs_local, launches, runs_ssh, reads_key, closes, opens_session.
  assert (Hkeyset : ∀ t, occurs 3 t = bool_decide (SSHKey r ≠ "") ->
                         occurs 3 t = true -> SSHKey r ≠ "").
  { intros t Hkey Hr. rewrite Hr in Hkey. symmetry in Hkey.
    by apply bool_decide_eq_true in Hkey. }
  unfold dispatch, bind at 1 2.
  destruct (decide (LocalCommand r ≠ "")) as [Hl|Hl];
    destruct (decide (SSHCommand r ≠ "")) as [Hs|Hs];
    rewrite ?(bool_decide_true (LocalCommand r ≠ "")),
            ?(bool_decide_false (LocalCommand r ≠ "")),
            ?(bool_decide_true (SSHCommand r ≠ "")),
            ?(bool_decide_false (SSHCommand r ≠ "")) by assumption;
    cbn [ret]; cbn beta iota.
  - pose proof (local_path_spec env lg r st) as (_ & Ht1 & _).
    pose proof (runLocalCommand_spec env r (localLogger lg r) st) as (Ht & _).
    cbv zeta in Ht1, Ht. rewrite Ht in Ht1. clear Ht.
    destruct (local_path env lg r st) as [e1 st1]. cbn [fst snd] in *; cbn beta iota.
    pose proof (ssh_path_spec env lg r st1) as (_ & Ht2 & _).
    destruct (runSSHCommand_events env r (sshLogger lg r) st1)
      as (t & Ht & Hinc & Hall & Hkey & Hclose & _).
    cbv zeta in Ht2. rewrite Ht in Ht2.
    destruct (ssh_path env lg r st1) as [e2 st2]. cbn [fst snd ret] in *; cbn beta iota.
    exists ([EvRunLocalCommand;
             EvExec (LocalCommand r) [] (LocalCommandTimeout r)]
            ++ EvRunSSHCommand :: t).
    rewrite Ht2, Ht1, <- app_assoc.
    split; [reflexivity|]. split; [exact Hinc|].
    split; [repeat constructor; by apply ssh_events_are_events|].
    split; [reflexivity|]. split; [reflexivity|]. split; [reflexivity|].
    split; [|exact Hclose].
    intros Hr. split; [assumption|]. by apply (Hkeyset t).
  - pose proof (local_path_spec env lg r st) as (_ & Ht1 & _).
    pose proof (runLocalCommand_spec env r (localLogger lg r) st) as (Ht & _).
    cbv zeta in Ht1, Ht. rewrite Ht in Ht1. clear Ht.
    destruct (local_path env lg r st) as [e1 st1]. cbn [fst snd] in *; cbn beta iota.
    exists [EvRunLocalCommand;
            EvExec (LocalCommand r) [] (LocalCommandTimeout r)].
    split; [exact Ht1|]. split; [reflexivity|].
    split; [repeat constructor|].
    split; [reflexivity|]. split; [reflexivity|]. split; [reflexivity|].
    split; [discriminate|reflexivity].
  - pose proof (ssh_path_spec env lg r st) as (_ & Ht2 & _).
    destruct (runSSHCommand_events env r (sshLogger lg r) st)
      as (t & Ht & Hinc & Hall & Hkey & Hclose & _).
    cbv zeta in Ht2. rewrite Ht in Ht2.
    destruct (ssh_path env lg r st) as [e2 st2]. cbn [fst snd ret] in *; cbn beta iota.
    exists (EvRunSSHCommand :: t).
    pose proof (ssh_events_rank r t 0 Hall ltac:(lia)) as Hno0.
    pose proof (ssh_events_rank r t 1 Hall ltac:(lia)) as Hno1.
    split; [exact Ht2|]. split; [exact Hinc|].
    split; [constructor; [exact I|by apply ssh_events_are_events]|].
    split; [exact Hno0|]. split; [exact Hno1|]. split; [reflexivity|].
    split; [|exact Hclose].
    intros Hr. split; [assumption|]. by apply (Hkeyset t).
  - exists []. cbn [fst snd ret]. rewrite app_nil_r.
    split; [reflexivity|]. split; [reflexivity|]. split; [constructor|].
    split; [reflexivity|]. split; [reflexivity|]. split; [reflexivity|].
    split; [discriminate|reflexivity].
Qed.



(** Whatever [HandleAlert] acts on comes from the resolved response: the
    program launched is the local command annotation, with no arguments and
    the resolved local timeout; the key file read is the key annotation or
    else the configured key; the host dialled (over tcp) and the command run
    are the annotations; and the only known-hosts file ever loaded is the
    configured one. *)
Theorem HandleAlert_acts_on_resolved_values_only env c lg a st :
  ∃ t, trace (snd (HandleAlert env c lg a st)) = trace st ++ t
       ∧ Forall (acts_on env c a) t.
Proof.
  pose proof (resolved_fields env c lg a st) as
    (_ & Hkey & _ & Hkh & _ & _ & Hhost & Hcmd & Hl & Hlt).
  cbv zeta in *. rewrite HandleAlert_steps in *. cbn [fst snd Response] in *.
  set (alogger := alert_logger lg a) in *.
  set (st0 := snd (Log LDebug alogger [("msg", VStr "Handling alert")] st)) in *.
  set (r := fst (resolveResponse env c alogger a st0)) in *.
  set (st1 := snd (resolveResponse env c alogger a st0)).
  destruct (dispatch_events env alogger r st1) as (t & Ht & _ & Hall & _).
  exists t. rewrite Ht. subst st1.
  destruct (resolveResponse_state env c alogger a st0) as [_ ->].
  split; [reflexivity|].
  eapply Forall_impl; [exact Hall|].
  intros [] Hev; simpl in *; try exact I; try contradiction;
    rewrite <- ?Hkey, <- ?Hkh, <- ?Hhost, <- ?Hcmd, <- ?Hl, <- ?Hlt;
    assumption.
Qed.

(** A key annotation that is present and empty overrides the configured
    key: the resolved [SSHKey] is empty and no key file is read, whatever
    key the configuration names. *)
Theorem empty_key_annotation_turns_key_authentication_off env c lg a st :
  Annotations a !! sshKeyAnnotation = Some "" ->
  let res := HandleAlert env c lg a st in
  SSHKey (Response (fst (fst res))) = ""
  ∧ ∃ t, trace (snd res) = trace st ++ t ∧ reads_key t = false.
Proof.
  intros Hann. cbv zeta.
  pose proof (resolved_fields env c lg a st) as (_ & Hkey & _).
  cbv zeta in Hkey. unfold override in Hkey. rewrite Hann in Hkey.
  simpl in Hkey. split; [exact Hkey|].
  rewrite HandleAlert_steps in *. cbn [fst snd Response] in *.
  set (alogger := alert_logger lg a) in *.
  set (st0 := snd (Log LDebug alogger [("msg", VStr "Handling alert")] st)) in *.
  set (r := fst (resolveResponse env c alogger a st0)) in *.
  set (st1 := snd (resolveResponse env c alogger a st0)).
  destruct (dispatch_events env alogger r st1)
    as (t & Ht & _ & _ & _ & _ & _ & Hread & _).
  exists t. rewrite Ht. subst st1.
  destruct (resolveResponse_state env c alogger a st0) as [_ ->].
  split; [reflexivity|].
  destruct (reads_key t) eqn:Hr; [|reflexivity].
  destruct (Hread eq_refl) as [_ Hne]. contradiction.
Qed.

Lemma empty_key_annotation_turns_key_authentication_off_witness :
  let res := HandleAlert Sample.env Sample.cfg [] Sample.no_key_alert
                         Sample.st0 in
  config.SSHKey Sample.cfg = "/etc/responder/id_ed25519"
  ∧ SSHKey (Response (fst (fst res))) = ""
  ∧ ∃ t, trace (snd res) = trace Sample.st0 ++ t ∧ reads_key t = false.
Proof.
  split; [reflexivity|].
  apply (empty_key_annotation_turns_key_authentication_off Sample.env
           Sample.cfg [] Sample.no_key_alert Sample.st0).
  reflexivity.
Defined.

(** ** The paths of the SSH executor *)

Ltac ssh_auth_ok Hkey :=
  let Hk := fresh "Hk" in
  let Hp := fresh "Hp" in
  destruct (decide (SSHKey _ ≠ "")) as [Hk|Hk];
    [destruct Hkey as [?|(? & ? & -> & Hp)]; [done|]; simpl; rewrite Hp; simpl
    |destruct (decide (SSHPassword _ ≠ "")); simpl].




(** A dial that fails before the server shows a key: the call returns the
    dial error as it is, counts once, and neither loads a known-hosts file
    nor opens a session nor closes anything. *)
Theorem ssh_dial_failure_is_returned_and_counted_once env r lg st err :
  key_usable env (SSHKey r) ->
  (∀ auth, dial_script env "tcp" (SSHHost r) (User r) auth
             (SSHHostKeyAlgorithms r) (SSHConnectionTimeout r) =
           DialFails err) ->
  let res := runSSHCommand env r lg st in
  fst res = Some err
  ∧ counter (snd res) "ssh" = S (counter st "ssh")
  ∧ trace (snd res) =
      trace st ++ EvRunSSHCommand :: key_read r ++ [EvDial "tcp" (SSHHost r)].
Proof.
  intros Hkey Hdial. cbv zeta. unfold key_read.
  split; [|split]; ssh_unfold; mstep.
  - ssh_auth_ok Hkey; rewrite Hdial; reflexivity.
  - ssh_auth_ok Hkey; rewrite Hdial; simpl; by counter_simpl.
  - ssh_auth_ok Hkey; rewrite Hdial; simpl; rewrite <- ?app_assoc;
      reflexivity.
Qed.






Lemma ssh_dial_failure_is_returned_and_counted_once_witness :
  let r := Drill.unreachable_response in
  let res := runSSHCommand Sample.env r [] Sample.st0 in
  fst res = Some "dial tcp: lookup gone.example.org:22: no such host"
  ∧ counter (snd res) "ssh" = S (counter Sample.st0 "ssh")
  ∧ trace (snd res) =
      trace Sample.st0 ++ EvRunSSHCommand :: key_read r
      ++ [EvDial "tcp" (SSHHost r)].
Proof.
  apply (ssh_dial_failure_is_returned_and_counted_once Sample.env
           Drill.unreachable_response [] Sample.st0);
    [left; reflexivity|intros; reflexivity].
Defined.


(** ** The local executor *)

(** The local executor counts exactly its failures: the counter of type
    [local] goes up by one when the call returns an error and stays when it
    returns nil, and no other counter is touched. *)
Theorem local_executor_counts_exactly_its_failures env r lg st :
  let res := runLocalCommand env r lg st in
  counter (snd res) "local" =
    (counter st "local" + if fst res is Some _ then 1 else 0)%nat
  ∧ (∀ type, type ≠ "local" -> counter (snd res) type = counter st type)
  ∧ (fst res = None -> CommandErrorsTotal (snd res) = CommandErrorsTotal st).
Proof.
  cbv zeta.
  pose proof (runLocalCommand_spec env r lg st) as (_ & Hcase).
  cbv zeta in Hcase.
  destruct (ctx_deadline_exceeded _); [|destruct (run_error _)];
    destruct Hcase as [-> Hc]; unfold counter at 1 3; rewrite Hc;
    repeat split; try discriminate;
    rewrite ?lookup_insert_eq; simpl; try lia;
    try (intros type Hne; by rewrite lookup_insert_ne).
  unfold counter. lia.
Qed.

(** The deadline is looked at before the result of the run: when it has
    passed, the call returns the timeout error whatever the run returned,
    and neither the error of the run nor the captured output is logged. *)
Theorem local_deadline_hides_the_run_result env r lg st :
  ctx_deadline_exceeded
    (execCommand_Run env (LocalCommand r) [] (LocalCommandTimeout r)) = true ->
  let res := runLocalCommand env r lg st in
  fst res = Some ("Local command timed out: " +:+ LocalCommand r)
  ∧ logs (snd res) =
      logs st
      ++ [{| lvl := LInfo;
             fields := lg ++ [("msg", VStr "Running local command")] |};
          {| lvl := LError;
             fields := lg ++ [("msg", VStr "Local command timed out")] |}]
  ∧ counter (snd res) "local" = S (counter st "local").
Proof.
  intros Hdl. cbv zeta. unfold runLocalCommand. mstep. rewrite Hdl. simpl.
  split; [reflexivity|]. split; [by rewrite <- app_assoc|]. by counter_simpl.
Qed.

Lemma local_deadline_hides_the_run_result_witness :
  let r := set_LocalCommand "yes" Sample.ssh_response in
  let res := runLocalCommand Sample.env r [] Sample.st0 in
  run_error (execCommand_Run Sample.env (LocalCommand r) []
               (LocalCommandTimeout r)) = Some "signal: killed"
  ∧ fst res = Some ("Local command timed out: " +:+ LocalCommand r)
  ∧ logs (snd res) =
      logs Sample.st0
      ++ [{| lvl := LInfo;
             fields := [] ++ [("msg", VStr "Running local command")] |};
          {| lvl := LError;
             fields := [] ++ [("msg", VStr "Local command timed out")] |}]
  ∧ counter (snd res) "local" = S (counter Sample.st0 "local").
Proof.
  split; [reflexivity|].
  apply (local_deadline_hides_the_run_result Sample.env
           (set_LocalCommand "yes" Sample.ssh_response) [] Sample.st0).
  reflexivity.
Defined.

(** ** The host-key callback *)

(** Without a known-hosts path a host-key check leaves no mark: no log
    line, no file load, no count.  With a path, every check logs the debug
    line first and loads the file anew, and it counts only when the file
    cannot be loaded, not when the key is unknown. *)
Theorem host_key_check_is_silent_without_known_hosts
    env knownHosts lg hostname remote key st :
  let st' := snd (hostKeyCallback env knownHosts lg hostname remote key st) in
  (knownHosts = "" -> st' = st)
  ∧ (knownHosts ≠ "" ->
     trace st' = trace st ++ [EvKnownHostsNew knownHosts]
     ∧ (∃ l, logs st' =
             logs st
             ++ {| lvl := LDebug;
                   fields := lg ++ [("msg", VStr "Verify SSH known hosts");
                                    ("hostname", VStr hostname);
                                    ("remote", VStr remote);
                                    ("key", VBase64 key)] |} :: l)
     ∧ counter st' "ssh" =
         (counter st "ssh"
          + if knownhosts_file env knownHosts is inl _ then 1 else 0)%nat).
Proof.
  cbv zeta. unfold hostKeyCallback, knownhosts_New, knownhosts_check,
    ssh_InsecureIgnoreHostKey. mstep. split.
  - intros ->. simpl. by destruct st.
  - intros Hne. rewrite decide_True by assumption. simpl.
    destruct (knownhosts_file env knownHosts) as [err|db]; simpl.
    + split; [reflexivity|]. split.
      * rewrite <- app_assoc. eexists; reflexivity.
      * counter_simpl. lia.
    + case_decide; simpl; (split; [reflexivity|]);
        (split; [exists []; reflexivity|]); unfold counter; simpl; lia.
Qed.

(** ** The counters of one alert *)


Lemma runLocalCommand_counters env r lg st :
  let res := runLocalCommand env r lg st in
  counter (snd res) "local" =
    (counter st "local" + if local_failure env r then 1 else 0)%nat
  ∧ (∀ type, type ≠ "local" -> counter (snd res) type = counter st type).
Proof.
  cbv zeta. unfold local_failure.
  pose proof (runLocalCommand_spec env r lg st) as (_ & Hcase).
  cbv zeta in Hcase.
  destruct (ctx_deadline_exceeded _); [|destruct (run_error _)];
    destruct Hcase as [_ Hc]; unfold counter at 1 3; rewrite Hc; simpl;
    split; rewrite ?lookup_insert_eq; simpl; try lia;
    try (intros type Hne; by rewrite lookup_insert_ne);
    unfold counter; try lia.
Qed.

Lemma dispatch_state env lg r st :
  snd (dispatch env lg r st) =
  if decide (SSHCommand r ≠ "") then
    snd (ssh_path env lg r (after_local env lg r st))
  else after_local env lg r st.
Proof.
  unfold dispatch, after_local, bind, ret.
  destruct (decide (LocalCommand r ≠ "")); destruct (decide (SSHCommand r ≠ ""));
    cbn beta iota;
    repeat match goal with
           | |- context [local_path ?e ?l ?x ?s] =>
               destruct (local_path e l x s); cbn [fst snd]
           | |- context [ssh_path ?e ?l ?x ?s] =>
               destruct (ssh_path e l x s); cbn [fst snd]
           end; reflexivity.
Qed.

Lemma dispatch_counters env lg r st :
  let st' := snd (dispatch env lg r st) in
  (∀ type, type ≠ "local" -> type ≠ "ssh" -> counter st' type = counter st type)
  ∧ counter st' "local" =
      (counter st "local"
       + if bool_decide (LocalCommand r ≠ "") && local_failure env r
         then 1 else 0)%nat
  ∧ (counter st "ssh" ≤ counter st' "ssh" ≤ S (S (counter st "ssh")))%nat
  ∧ (SSHCommand r = "" -> counter st' "ssh" = counter st "ssh").
Proof.
  cbv zeta. rewrite dispatch_state.
  assert (Hlocal :
    counter (after_local env lg r st) "local" =
      (counter st "local"
       + if bool_decide (LocalCommand r ≠ "") && local_failure env r
         then 1 else 0)%nat
    ∧ (∀ type, type ≠ "local" ->
               counter (after_local env lg r st) type = counter st type)).
  { unfold after_local.
    destruct (decide (LocalCommand r ≠ "")) as [Hl|Hl].
    - rewrite bool_decide_true by assumption. cbn [andb].
      pose proof (local_path_spec env lg r st) as (_ & _ & Hc).
      pose proof (runLocalCommand_counters env r (localLogger lg r) st)
        as [H1 H2].
      cbv zeta in *. unfold counter in *. rewrite Hc. split; assumption.
    - rewrite bool_decide_false by assumption. cbn [andb].
      split; [lia|reflexivity]. }
  destruct Hlocal as [Hl1 Hl2].
  destruct (decide (SSHCommand r ≠ "")) as [Hs|Hs].
  - set (st1 := after_local env lg r st) in *.
    pose proof (ssh_path_spec env lg r st1) as (_ & _ & Hc).
    pose proof (runSSHCommand_counter env r (sshLogger lg r) st1)
      as (_ & Hle & Hother).
    destruct (grows_runSSHCommand env r (sshLogger lg r) st1)
      as (_ & _ & Hmono).
    specialize (Hmono "ssh"). cbv zeta in *.
    assert (Hsame : ∀ type,
      counter (snd (ssh_path env lg r st1)) type =
      counter (snd (runSSHCommand env r (sshLogger lg r) st1)) type).
    { intros type. unfold counter. by rewrite Hc. }
    split; [intros type H1 H2; by rewrite Hsame, Hother, Hl2|].
    split; [by rewrite Hsame, Hother, Hl1|].
    split; [rewrite Hsame, <- (Hl2 "ssh") by done; lia|].
    intros ?; contradiction.
  - split; [intros type H1 H2; by apply Hl2|].
    split; [exact Hl1|].
    rewrite (Hl2 "ssh") by done. split; [lia|reflexivity].
Qed.

(** What one call of [HandleAlert] does to the counters: only the types
    [local] and [ssh] change; [local] goes up by one exactly when a local
    command is set and its launch fails, whatever error [HandleAlert]
    returns; [ssh] goes up by at most two, and not at all without an SSH
    command. *)
Theorem HandleAlert_counter_changes env c lg a st :
  let res := HandleAlert env c lg a st in
  let r := Response (fst (fst res)) in
  (∀ type, type ≠ "local" -> type ≠ "ssh" ->
           counter (snd res) type = counter st type)
  ∧ counter (snd res) "local" =
      (counter st "local"
       + if bool_decide (LocalCommand r ≠ "") && local_failure env r
         then 1 else 0)%nat
  ∧ (counter st "ssh" ≤ counter (snd res) "ssh" ≤ S (S (counter st "ssh")))%nat
  ∧ (SSHCommand r = "" -> counter (snd res) "ssh" = counter st "ssh").
Proof.
  cbv zeta. rewrite HandleAlert_steps. cbn [fst snd Response].
  set (alogger := alert_logger lg a).
  set (st0 := snd (Log LDebug alogger [("msg", VStr "Handling alert")] st)).
  set (r := fst (resolveResponse env c alogger a st0)).
  set (st1 := snd (resolveResponse env c alogger a st0)).
  pose proof (dispatch_counters env alogger r st1) as H. cbv zeta in H.
  assert (Hc : ∀ type, counter st1 type = counter st type).
  { intros type. unfold counter. subst st1.
    destruct (resolveResponse_state env c alogger a st0) as [-> _].
    reflexivity. }
  destruct H as (H1 & H2 & H3 & H4).
  split; [intros type Hl Hs; by rewrite H1, Hc|].
  split; [by rewrite H2, Hc|].
  split; [by rewrite <- (Hc "ssh")|].
  intros Hs. by rewrite H4, Hc.
Qed.

(** ** Timeout annotations that parse *)

(** A timeout annotation that parses replaces the configured default with
    the parsed duration, whatever it is (no bound is checked); the local
    timeout so set is the deadline under which the program is launched. *)
Theorem valid_timeout_annotation_overrides_the_default
    env c lg a st f val d :
  Annotations a !! timeout_key f = Some val ->
  time_ParseDuration env val = inr d ->
  let res := HandleAlert env c lg a st in
  let r := Response (fst (fst res)) in
  timeout_value f r = d
  ∧ (f = LocalTimeout -> LocalCommand r ≠ "" ->
     ∃ t, trace (snd res) =
          trace st ++ EvRunLocalCommand :: EvExec (LocalCommand r) [] d :: t).
Proof.
  intros Hann Hparse. cbv zeta.
  pose proof (resolved_fields env c lg a st) as
    (_ & _ & _ & _ & _ & Hst & _ & _ & _ & Hlt).
  cbv zeta in *.
  assert (Hval : timeout_value f (Response (fst (fst (HandleAlert env c lg a st)))) = d).
  { destruct f; simpl in *.
    - rewrite Hst. unfold override_duration. by rewrite Hann, Hparse.
    - rewrite Hlt. unfold override_duration. by rewrite Hann, Hparse. }
  split; [exact Hval|].
  intros -> Hl. simpl in Hval. revert Hl Hval.
  rewrite HandleAlert_steps. cbn [fst snd Response].
  set (alogger := alert_logger lg a).
  set (st0 := snd (Log LDebug alogger [("msg", VStr "Handling alert")] st)).
  set (r := fst (resolveResponse env c alogger a st0)).
  set (st1 := snd (resolveResponse env c alogger a st0)).
  intros Hl Hval.
  destruct (dispatch_trace env alogger r st1) as [t Ht].
  rewrite decide_True in Ht by assumption. rewrite Hval in Ht.
  rewrite Ht. subst st1.
  destruct (resolveResponse_state env c alogger a st0) as [_ ->].
  simpl. eexists. reflexivity.
Qed.

Lemma valid_timeout_annotation_overrides_the_default_witness :
  let res := HandleAlert Sample.env Sample.cfg [] Drill.quick_alert
                         Sample.st0 in
  let r := Response (fst (fst res)) in
  config.LocalCommandTimeout Sample.cfg = 30 * Second
  ∧ timeout_value LocalTimeout r = Second
  ∧ (LocalTimeout = LocalTimeout -> LocalCommand r ≠ "" ->
     ∃ t, trace (snd res) =
          trace Sample.st0
          ++ EvRunLocalCommand :: EvExec (LocalCommand r) [] Second :: t).
Proof.
  split; [reflexivity|].
  apply (valid_timeout_annotation_overrides_the_default Sample.env Sample.cfg
           [] Drill.quick_alert Sample.st0 LocalTimeout "1s" Second);
    reflexivity.
Defined.

(** ** The log lines of one alert *)

Lemma lines_of_app lg l1 l2 :
  lines_of lg l1 -> lines_of lg l2 -> lines_of lg (l1 ++ l2).
Proof. unfold lines_of. intros. by apply Forall_app. Qed.

Lemma logs_as_ret {A : Type} lg (x : A) : logs_as lg (ret x).
Proof. intros st. exists []. simpl. rewrite app_nil_r. by split; [|constructor]. Qed.

Lemma logs_as_bind_on {A B : Type} lg (c : M A) (k : A -> M B) :
  logs_as lg c -> (∀ st, logs_as lg (k (fst (c st)))) -> logs_as lg (bind c k).
Proof.
  intros Hc Hk st. unfold bind. specialize (Hc st). specialize (Hk st).
  destruct (c st) as [x st1]. cbn [fst snd] in *.
  destruct Hc as (l1 & Hl1 & HP1). destruct (Hk st1) as (l2 & Hl2 & HP2).
  exists (l1 ++ l2). rewrite Hl2, Hl1, app_assoc.
  split; [reflexivity|by apply lines_of_app].
Qed.

Lemma logs_as_bind {A B : Type} lg (c : M A) (k : A -> M B) :
  logs_as lg c -> (∀ x, logs_as lg (k x)) -> logs_as lg (bind c k).
Proof. intros Hc Hk. apply logs_as_bind_on; [exact Hc|intros; apply Hk]. Qed.

Lemma logs_as_Log lg more l kvs : logs_as lg (Log l (lg ++ more) kvs).
Proof.
  intros st. eexists. split; [reflexivity|].
  constructor; [|constructor]. exists (more ++ kvs). simpl.
  by rewrite app_assoc.
Qed.

Lemma logs_as_Log_same lg l kvs : logs_as lg (Log l lg kvs).
Proof.
  intros st. eexists. split; [reflexivity|].
  constructor; [|constructor]. by exists kvs.
Qed.

Lemma logs_as_emit lg ev : logs_as lg (emit ev).
Proof. intros st. exists []. simpl. rewrite app_nil_r. by split; [|constructor]. Qed.

Lemma logs_as_Inc lg type : logs_as lg (Inc type).
Proof. intros st. exists []. simpl. rewrite app_nil_r. by split; [|constructor]. Qed.

Create HintDb logs_as.
#[local] Hint Resolve logs_as_ret logs_as_Log logs_as_Log_same logs_as_emit
  logs_as_Inc : logs_as.

Ltac logs_tac :=
  repeat first
    [ progress eauto with logs_as
    | apply logs_as_bind; [|intros ?]
    | case_decide
    | case_match ].

Lemma logs_as_runLocalCommand env r lg more :
  logs_as lg (runLocalCommand env r (lg ++ more)).
Proof. unfold runLocalCommand. logs_tac. Qed.

Lemma logs_as_getPrivateKeyAuth env lg path :
  logs_as lg (getPrivateKeyAuth env path).
Proof. unfold getPrivateKeyAuth. logs_tac. Qed.

Lemma logs_as_hostKeyCallback env knownHosts lg more hostname remote key :
  logs_as lg (hostKeyCallback env knownHosts (lg ++ more) hostname remote key).
Proof.
  unfold hostKeyCallback, ssh_InsecureIgnoreHostKey.
  case_decide; [|logs_tac].
  apply logs_as_bind; [eauto with logs_as|intros _].
  apply logs_as_bind_on.
  - unfold knownhosts_New. logs_tac.
  - intros st. rewrite knownhosts_New_value.
    destruct (knownhosts_file env knownHosts) as [err|db]; [logs_tac|].
    unfold knownhosts_check. logs_tac.
Qed.

Lemma logs_as_ssh_Dial env lg network addr cfg :
  (∀ hostname remote key,
     logs_as lg (cc_HostKeyCallback cfg hostname remote key)) ->
  logs_as lg (ssh_Dial env network addr cfg).
Proof. intros Hcb. unfold ssh_Dial. logs_tac. Qed.

Lemma logs_as_ssh_worker env lg r : logs_as lg (ssh_worker env r).
Proof. unfold ssh_worker. logs_tac. Qed.

#[local] Hint Resolve logs_as_runLocalCommand logs_as_getPrivateKeyAuth
  logs_as_hostKeyCallback logs_as_ssh_worker : logs_as.

Lemma logs_as_runSSHCommand env r lg more :
  logs_as lg (runSSHCommand env r (lg ++ more)).
Proof.
  unfold runSSHCommand.
  apply logs_as_bind; [eauto with logs_as|intros _].
  apply logs_as_bind; [eauto with logs_as|intros _].
  apply logs_as_bind; [logs_tac|intros [err|auth]]; [logs_tac|].
  apply logs_as_bind; [apply logs_as_ssh_Dial; simpl; eauto with logs_as|].
  intros [err|connection]; [logs_tac|].
  apply logs_as_bind; [eauto with logs_as|intros [[se ce] received]].
  logs_tac.
Qed.

#[local] Hint Resolve logs_as_runSSHCommand : logs_as.

Lemma logs_as_dispatch env lg r : logs_as lg (dispatch env lg r).
Proof.
  unfold dispatch, local_path, ssh_path, localLogger, sshLogger, log_With.
  logs_tac.
Qed.

Lemma logs_as_resolveResponse env c lg a : logs_as lg (resolveResponse env c lg a).
Proof. unfold resolveResponse. logs_tac. Qed.

(** Every line that [HandleAlert] logs, in the resolver, the dispatch, the
    executors and the host-key callback, starts with the pairs of the
    caller's logger followed by the alert's fingerprint and its display
    name: the [alertname] label when the alert has one (even an empty one),
    the fingerprint otherwise.  The first line is the debug line. *)
Theorem HandleAlert_log_lines_carry_the_alert env c lg a st :
  let prefix :=
    lg ++ [("alert", VStr (Fingerprint a));
           ("alertname",
            VStr (default (Fingerprint a) (Labels a !! "alertname")))] in
  ∃ l, logs (snd (HandleAlert env c lg a st)) =
       logs st
       ++ {| lvl := LDebug;
             fields := prefix ++ [("msg", VStr "Handling alert")] |} :: l
       ∧ lines_of prefix l.
Proof.
  cbv zeta.
  assert (Hname : default (Fingerprint a) (Labels a !! "alertname") = Name a).
  { unfold Name. by destruct (Labels a !! "alertname"). }
  rewrite Hname. change (lg ++ _) with (alert_logger lg a).
  rewrite HandleAlert_steps. cbn [fst snd].
  set (alogger := alert_logger lg a).
  set (st0 := snd (Log LDebug alogger [("msg", VStr "Handling alert")] st)).
  destruct (logs_as_resolveResponse env c alogger a st0) as (l1 & Hl1 & HP1).
  set (r := fst (resolveResponse env c alogger a st0)).
  set (st1 := snd (resolveResponse env c alogger a st0)) in *.
  destruct (logs_as_dispatch env alogger r st1) as (l2 & Hl2 & HP2).
  exists (l1 ++ l2). rewrite Hl2, Hl1. subst st0. simpl logs.
  rewrite <- !app_assoc. split; [reflexivity|by apply lines_of_app].
Qed.

(** ** What the outcome of an alert depends on *)

Lemma same_change_refl st st' : same_change st st st' st'.
Proof.
  split; [exists []; by rewrite !app_nil_r|]. intros; lia.
Qed.

Lemma same_change_trans st st1 st2 st' st1' st2' :
  same_change st st1 st' st1' -> same_change st1 st2 st1' st2' ->
  same_change st st2 st' st2'.
Proof.
  intros [(t1 & Ht1 & Ht1') Hc1] [(t2 & Ht2 & Ht2') Hc2]. split.
  - exists (t1 ++ t2). by rewrite Ht2, Ht2', Ht1, Ht1', !app_assoc.
  - intros type. specialize (Hc1 type). specialize (Hc2 type). lia.
Qed.

Lemma same_effect_ret {A : Type} (x : A) : same_effect (ret x) (ret x).
Proof. intros st st'. split; [reflexivity|apply same_change_refl]. Qed.

Lemma same_effect_bind_on {A B : Type} (c c' : M A) (k k' : A -> M B) :
  same_effect c c' ->
  (∀ st, same_effect (k (fst (c st))) (k' (fst (c st)))) ->
  same_effect (bind c k) (bind c' k').
Proof.
  intros Hc Hk st st'. unfold bind.
  specialize (Hc st st'). specialize (Hk st).
  destruct (c st) as [x st1]. destruct (c' st') as [x' st1'].
  cbn [fst snd] in *. destruct Hc as [<- Hch].
  destruct (Hk st1 st1') as [Hv Hch2].
  split; [exact Hv|]. eapply same_change_trans; eassumption.
Qed.

Lemma same_effect_bind {A B : Type} (c c' : M A) (k k' : A -> M B) :
  same_effect c c' -> (∀ x, same_effect (k x) (k' x)) ->
  same_effect (bind c k) (bind c' k').
Proof. intros Hc Hk. apply same_effect_bind_on; [exact Hc|intros; apply Hk]. Qed.

Lemma same_effect_Log l l' lg lg' kvs kvs' :
  same_effect (Log l lg kvs) (Log l' lg' kvs').
Proof.
  intros st st'. split; [reflexivity|]. split; simpl.
  - exists []. by rewrite !app_nil_r.
  - intros type. unfold counter. simpl. lia.
Qed.

Lemma same_effect_emit ev : same_effect (emit ev) (emit ev).
Proof.
  intros st st'. split; [reflexivity|]. split; simpl.
  - eexists. split; reflexivity.
  - intros type. unfold counter. simpl. lia.
Qed.

Lemma same_effect_Inc type : same_effect (Inc type) (Inc type).
Proof.
  intros st st'. split; [reflexivity|]. split.
  - exists []. simpl. by rewrite !app_nil_r.
  - intros type'. destruct (decide (type = type')) as [->|Hne].
    + rewrite !counter_Inc_eq. lia.
    + rewrite !counter_Inc_ne by done. lia.
Qed.

Create HintDb same_effect.
#[local] Hint Resolve same_effect_ret same_effect_Log same_effect_emit
  same_effect_Inc : same_effect.

Ltac same_tac :=
  repeat first
    [ progress eauto with same_effect
    | apply same_effect_bind; [|intros ?]
    | case_decide
    | case_match ].

Lemma same_effect_runLocalCommand env r lg lg' :
  same_effect (runLocalCommand env r lg) (runLocalCommand env r lg').
Proof. unfold runLocalCommand. same_tac. Qed.

Lemma same_effect_getPrivateKeyAuth env path :
  same_effect (getPrivateKeyAuth env path) (getPrivateKeyAuth env path).
Proof. unfold getPrivateKeyAuth. same_tac. Qed.

Lemma same_effect_hostKeyCallback env knownHosts lg lg' hostname remote key :
  same_effect (hostKeyCallback env knownHosts lg hostname remote key)
              (hostKeyCallback env knownHosts lg' hostname remote key).
Proof.
  unfold hostKeyCallback, ssh_InsecureIgnoreHostKey.
  case_decide; [|same_tac].
  apply same_effect_bind; [eauto with same_effect|intros _].
  apply same_effect_bind_on.
  - unfold knownhosts_New. same_tac.
  - intros st. rewrite knownhosts_New_value.
    destruct (knownhosts_file env knownHosts) as [err|db]; [same_tac|].
    unfold knownhosts_check. same_tac.
Qed.

Lemma same_effect_ssh_worker env r :
  same_effect (ssh_worker env r) (ssh_worker env r).
Proof. unfold ssh_worker. same_tac. Qed.

#[local] Hint Resolve same_effect_runLocalCommand same_effect_getPrivateKeyAuth
  same_effect_hostKeyCallback same_effect_ssh_worker : same_effect.

Lemma same_effect_runSSHCommand env r lg lg' :
  same_effect (runSSHCommand env r lg) (runSSHCommand env r lg').
Proof.
  unfold runSSHCommand.
  apply same_effect_bind; [eauto with same_effect|intros _].
  apply same_effect_bind; [eauto with same_effect|intros _].
  apply same_effect_bind; [same_tac|intros [err|auth]]; [same_tac|].
  apply same_effect_bind.
  - unfold ssh_Dial. simpl. same_tac.
  - intros [err|connection]; [same_tac|].
    apply same_effect_bind; [eauto with same_effect|intros [[se ce] received]].
    same_tac.
Qed.

#[local] Hint Resolve same_effect_runSSHCommand : same_effect.

Lemma same_effect_dispatch env lg lg' r :
  same_effect (dispatch env lg r) (dispatch env lg' r).
Proof. unfold dispatch, local_path, ssh_path. same_tac. Qed.

Lemma same_change_of_unchanged st st1 st' st1' :
  CommandErrorsTotal st1 = CommandErrorsTotal st -> trace st1 = trace st ->
  CommandErrorsTotal st1' = CommandErrorsTotal st' -> trace st1' = trace st' ->
  same_change st st1 st' st1'.
Proof.
  intros Hc Ht Hc' Ht'. split.
  - exists []. by rewrite Ht, Ht', !app_nil_r.
  - intros type. unfold counter. rewrite Hc, Hc'. lia.
Qed.

(** The outcome of [HandleAlert] depends on the alert only through the
    seven annotations it reads: two alerts that agree on them get the same
    response and the same error, make the same outside calls and move the
    counters by the same amounts, whatever their labels, fingerprints and
    other annotations, the logger and the state before. *)
Theorem HandleAlert_outcome_depends_on_seven_annotations
    env c lg lg' a a' st st' :
  (∀ key, key ∈ annotation_keys ->
          Annotations a !! key = Annotations a' !! key) ->
  let res := HandleAlert env c lg a st in
  let res' := HandleAlert env c lg' a' st' in
  snd (fst res) = snd (fst res')
  ∧ Response (fst (fst res)) = Response (fst (fst res'))
  ∧ same_change st (snd res) st' (snd res').
Proof.
  intros Hagree. cbv zeta. rewrite !HandleAlert_steps. cbn [fst snd Response].
  set (al := alert_logger lg a). set (al' := alert_logger lg' a').
  set (st0 := snd (Log LDebug al [("msg", VStr "Handling alert")] st)).
  set (st0' := snd (Log LDebug al' [("msg", VStr "Handling alert")] st')).
  assert (Hr : fst (resolveResponse env c al a st0) =
               fst (resolveResponse env c al' a' st0')).
  { rewrite !resolveResponse_value. unfold override, override_duration.
    rewrite <- !Hagree by (unfold annotation_keys; set_solver).
    reflexivity. }
  rewrite <- Hr.
  set (r := fst (resolveResponse env c al a st0)).
  destruct (resolveResponse_state env c al a st0) as [Hc1 Ht1].
  destruct (resolveResponse_state env c al' a' st0') as [Hc1' Ht1'].
  set (st1 := snd (resolveResponse env c al a st0)) in *.
  set (st1' := snd (resolveResponse env c al' a' st0')) in *.
  destruct (same_effect_dispatch env al al' r st1 st1') as [Hv Hch].
  split; [exact Hv|]. split; [reflexivity|].
  eapply same_change_trans; [|exact Hch].
  apply same_change_of_unchanged; assumption.
Qed.

Lemma HandleAlert_outcome_depends_on_seven_annotations_witness :
  let res := HandleAlert Sample.env Sample.cfg [] Sample.echo_alert
                         Sample.st0 in
  let res' := HandleAlert Sample.env Sample.cfg [("caller", VStr "webhook")]
                          Drill.other_echo_alert Drill.later_state in
  snd (fst res) = snd (fst res')
  ∧ Response (fst (fst res)) = Response (fst (fst res'))
  ∧ same_change Sample.st0 (snd res) Drill.later_state (snd res').
Proof.
  apply (HandleAlert_outcome_depends_on_seven_annotations Sample.env
           Sample.cfg [] [("caller", VStr "webhook")] Sample.echo_alert
           Drill.other_echo_alert Sample.st0 Drill.later_state).
  intros key Hin. unfold annotation_keys in Hin.
  repeat (apply elem_of_cons in Hin as [->|Hin]; [reflexivity|]).
  by apply elem_of_nil in Hin.
Defined.
